(** * mspkit: the MSP frame codec, the transport session and the waypoint
      mission synchronizer, embedded from [mspkit/core.py] and
      [mspkit/mission.py].

    Python integers are [Z], [bytes] values are lists of [Byte.byte], Python
    floats are IEEE binary64 primitive floats.  A method that mutates [self]
    is a function from the object to a result and the updated object; a
    Python exception is the [Raise] case of [outcome]. *)

From Stdlib Require Import ZArith List Lia Bool String Strings.Byte.
From Stdlib Require Import Floats.PrimFloat Floats.FloatOps Floats.SpecFloat.
From Stdlib Require Import Uint63.
From stdpp Require Import gmap strings list.

#[local] Set Warnings "-inexact-float,-register-all,-abstract-large-number".
#[local] Open Scope Z_scope.

(** ** Exceptions and the state-and-exception monad *)

(** What an [MSPException] of [core.py] reports. *)
Inductive msp_failure :=
| NotConnected          (* "Not connected" *)
| V1PayloadTooLarge     (* "MSP v1 payload too large (max 255 bytes)" *)
| V2PayloadTooLarge     (* "MSP v2 payload too large (max 65535 bytes)" *)
| SendFailed            (* "Failed to send MSP command: ..." *)
| ReadFailed.           (* "Failed to read MSP response: ..." *)

Inductive exn :=
| MSPException (why : msp_failure)
| SerialException
| StructError
| TypeError
| ValueError
| OverflowError
| KeyError
| AttributeError.

Inductive outcome (A : Type) :=
| Return (a : A)
| Raise (e : exn).
Arguments Return {A} a.
Arguments Raise {A} e.

(** A computation over a mutable object of type [S]. *)
Definition M (S A : Type) : Type := S -> outcome A * S.

Definition ret {S A} (a : A) : M S A := fun s => (Return a, s).
Definition raise {S A} (e : exn) : M S A := fun s => (Raise e, s).
Definition bind {S A B} (m : M S A) (k : A -> M S B) : M S B :=
  fun s => match m s with
           | (Return a, s') => k a s'
           | (Raise e, s') => (Raise e, s')
           end.
(** A pure computation that may raise, run inside [M]. *)
Definition lift {S A} (o : outcome A) : M S A := fun s => (o, s).
(** [try: m except <handles>: h] *)
Definition try_except {S A} (m : M S A) (handles : exn -> bool) (h : M S A) : M S A :=
  fun s => match m s with
           | (Return a, s') => (Return a, s')
           | (Raise e, s') => if handles e then h s' else (Raise e, s')
           end.

Notation "'let*' p ':=' m 'in' k" := (bind m (fun p => k))
  (at level 10, p pattern, m at level 200, k at level 200).

(** ** Bytes and [struct] *)

Definition bytes := list byte.

#[global] Instance byte_eq_dec : EqDecision byte := Byte.byte_eq_dec.

Definition byte_to_Z (b : byte) : Z := Z.of_N (Byte.to_N b).

(** The byte whose value is [z mod 256]. *)
Definition byte_of_Z (z : Z) : byte :=
  match Byte.of_N (Z.to_N (z mod 256)) with
  | Some b => b
  | None => "000"%byte
  end.

(** [bytes([z1, z2, ...])]: a [ValueError] unless every item is in
    [range(256)]. *)
Fixpoint bytes_of (zs : list Z) : outcome bytes :=
  match zs with
  | [] => Return []
  | z :: r =>
      if (0 <=? z) && (z <? 256)
      then match bytes_of r with
           | Return bs => Return (byte_of_Z z :: bs)
           | Raise e => Raise e
           end
      else Raise ValueError
  end.

(** [ord(b)] of a [bytes] value: a [TypeError] unless its length is one. *)
Definition ord (b : bytes) : outcome Z :=
  match b with
  | [x] => Return (byte_to_Z x)
  | _ => Raise TypeError
  end.

Definition len {A} (l : list A) : Z := Z.of_nat (length l).

(** Little-endian two's-complement image of [z] on [n] bytes. *)
Fixpoint le_bytes (n : nat) (z : Z) : bytes :=
  match n with
  | O => []
  | S k => byte_of_Z z :: le_bytes k (z / 256)
  end.

Fixpoint le_value (bs : bytes) : Z :=
  match bs with
  | [] => 0
  | b :: r => byte_to_Z b + 256 * le_value r
  end.

(** One field of [struct.pack('<...')]: a [struct.error] when the value
    is outside the field's range. *)
Definition pack_field (lo hi : Z) (n : nat) (z : Z) : outcome bytes :=
  if (lo <=? z) && (z <=? hi) then Return (le_bytes n z) else Raise StructError.

Definition pack_B := pack_field 0 255 1.
Definition pack_H := pack_field 0 65535 2.
Definition pack_h := pack_field (-32768) 32767 2.
Definition pack_i := pack_field (-2147483648) 2147483647 4.

Definition unpack_unsigned (bs : bytes) : Z := le_value bs.
Definition unpack_signed (bs : bytes) : Z :=
  let v := le_value bs in
  let w := 8 * len bs in
  if v <? 2 ^ (w - 1) then v else v - 2 ^ w.

(** [a + b] on packed fields, stopping at the first [struct.error]. *)
Definition pack_cat (a b : outcome bytes) : outcome bytes :=
  match a with
  | Return x => match b with
                | Return y => Return (x ++ y)
                | Raise e => Raise e
                end
  | Raise e => Raise e
  end.

(** [struct.pack('<BHH', flag, code, size)] *)
Definition pack_BHH (flag code size : Z) : outcome bytes :=
  pack_cat (pack_B flag) (pack_cat (pack_H code) (pack_H size)).

(** [struct.pack('<HH', code, size)] *)
Definition pack_HH (code size : Z) : outcome bytes :=
  pack_cat (pack_H code) (pack_H size).

(** [struct.unpack('<HH', b)] *)
Definition unpack_HH (b : bytes) : outcome (Z * Z) :=
  match b with
  | [c0; c1; s0; s1] => Return (unpack_unsigned [c0; c1], unpack_unsigned [s0; s1])
  | _ => Raise StructError
  end.

(** ** core.py *)

Module Core.

Definition MSP_V1_HEADER : bytes := ["$"; "M"; "<"]%byte.
Definition MSP_V2_HEADER : bytes := ["$"; "X"; "<"]%byte.
Definition MSP_V1_RESPONSE : bytes := ["$"; "M"; ">"]%byte.
Definition MSP_V2_RESPONSE : bytes := ["$"; "X"; ">"]%byte.
Definition MSP_ERROR : bytes := ["$"; "M"; "!"]%byte.

Inductive FlightController := INAV | BETAFLIGHT | CLEANFLIGHT.

(** *** The serial port

    [serial.Serial] is outside the repository; the port is a scripted
    device.  Its incoming side is the sequence of things the next reads
    will meet: a byte, a point where a read gives up waiting and returns
    what it has, or a point where a read raises [SerialException].  Its
    outgoing side records every packet handed to [write], in order. *)
Inductive rx_event :=
| RxByte (b : byte)
| RxTimeout
| RxFault.

(** An incoming event that cannot start a frame. *)
Definition quiet (ev : rx_event) : Prop :=
  match ev with
  | RxByte b => b <> "$"%byte
  | RxTimeout => True
  | RxFault => False
  end.

(** What one pass of the header loop of [read_response] can meet on a
    port that does not fail, short of a header it knows: a read that
    times out, a byte other than ['$'], a ['$'] followed by two bytes
    that make no known header, or a ['$'] followed by fewer than two
    bytes before the read gives up. *)
Inductive gap :=
| Silence
| Stray (b : byte)
| FalseStart (h1 h2 : byte)
| Torn (h : option byte).

Definition gap_events (g : gap) : list rx_event :=
  match g with
  | Silence => [RxTimeout]
  | Stray b => [RxByte b]
  | FalseStart h1 h2 => [RxByte "$"; RxByte h1; RxByte h2]
  | Torn None => [RxByte "$"; RxTimeout]
  | Torn (Some h) => [RxByte "$"; RxByte h; RxTimeout]
  end.

Definition gap_ok (g : gap) : Prop :=
  match g with
  | Stray b => b <> "$"%byte
  | FalseStart h1 h2 =>
      ["$"%byte; h1; h2] <> MSP_V1_RESPONSE
      /\ ["$"%byte; h1; h2] <> MSP_V2_RESPONSE
      /\ ["$"%byte; h1; h2] <> MSP_ERROR
  | _ => True
  end.

(** The incoming events of a sequence of such passes. *)
Definition gaps_events (gaps : list gap) : list rx_event :=
  concat (gap_events <$> gaps).

Record Serial := mkSerial {
  rx : list rx_event;
  tx : list bytes;
  tx_fault : bool   (* [write] raises [SerialException] *)
}.

(** [ser.read(n)] on the incoming events. *)
Fixpoint read_events (n : nat) (evs : list rx_event) : outcome bytes * list rx_event :=
  match n with
  | O => (Return [], evs)
  | S k =>
      match evs with
      | [] => (Return [], [])
      | RxTimeout :: r => (Return [], r)
      | RxFault :: r => (Raise SerialException, r)
      | RxByte b :: r =>
          match read_events k r with
          | (Return bs, r') => (Return (b :: bs), r')
          | (Raise e, r') => (Raise e, r')
          end
      end
  end.

Definition ser_read (n : Z) : M Serial bytes :=
  fun s => let '(o, r) := read_events (Z.to_nat n) (rx s) in
           (o, mkSerial r (tx s) (tx_fault s)).

Definition ser_write (packet : bytes) : M Serial unit :=
  fun s => if tx_fault s then (Raise SerialException, s)
           else (Return tt, mkSerial (rx s) (tx s ++ [packet]) (tx_fault s)).

(** A port computation that leaves the outgoing side alone. *)
Definition rx_only {A} (m : M Serial A) : Prop :=
  forall s, tx (snd (m s)) = tx s /\ tx_fault (snd (m s)) = tx_fault s.

(** *** ConnectionManager

    [timeout] is the deadline of [read_response] counted in passes of its
    header loop: the wall clock is replaced by the number of times the
    loop test [time.time() - start_time < timeout] succeeds.  [ser] is
    [None] after [close].  [port] and [baudrate] only serve to open the
    port and are left out, as are [_connect] and [_detect_msp_version],
    which run once in the constructor: a connection value here is one
    that the constructor has returned. *)
Record ConnectionManager := mkConn {
  ser : option Serial;
  timeout : nat;
  msp_v2_supported : bool;
  fc_type : FlightController
}.

Definition set_ser (c : ConnectionManager) (s : Serial) : ConnectionManager :=
  mkConn (Some s) (timeout c) (msp_v2_supported c) (fc_type c).

Definition _calculate_checksum_v1 (size code : Z) (data : bytes) : Z :=
  fold_left (fun chk b => Z.lxor chk (byte_to_Z b)) data (Z.lxor size code).

(** One pass of the inner [for _ in range(8)] loop. *)
Definition crc_shift (crc : Z) : Z :=
  Z.land
    (if Z.land crc 128 =? 0 then Z.shiftl crc 1 else Z.lxor (Z.shiftl crc 1) 213)
    255.

Definition crc_update (crc : Z) (b : byte) : Z :=
  Nat.iter 8 crc_shift (Z.lxor crc (byte_to_Z b)).

Definition _calculate_crc_v2 (data : bytes) : Z :=
  fold_left crc_update data 0.

(** Runs a port computation on [self.ser]. *)
Definition on_ser {A} (m : M Serial A) (c : ConnectionManager) (s : Serial)
  : outcome A * ConnectionManager :=
  let '(o, s') := m s in (o, set_ser c s').

Definition serial_to_msp (why : msp_failure) (e : exn) : exn :=
  match e with
  | SerialException => MSPException why
  | _ => e
  end.

Definition is_serial_exception (e : exn) : bool :=
  match e with SerialException => true | _ => false end.

(** The packet [send_msp_v1] builds, or the exception it raises while
    building it. *)
Definition encode_v1 (code : Z) (data : bytes) : outcome bytes :=
  let size := len data in
  if size >? 255 then Raise (MSPException V1PayloadTooLarge)
  else
    let chk := _calculate_checksum_v1 size code data in
    pack_cat (pack_cat (Return MSP_V1_HEADER) (bytes_of [size; code]))
             (pack_cat (Return data) (bytes_of [chk])).

(** What [struct.pack('<BHH', 0, code, size) + data] is when the code and
    the size fit their fields. *)
Definition v2_covered (code : Z) (data : bytes) : bytes :=
  [byte_of_Z 0; byte_of_Z code; byte_of_Z (code / 256);
   byte_of_Z (len data); byte_of_Z (len data / 256)] ++ data.

(** The packet [send_msp_v2] builds. *)
Definition encode_v2 (code : Z) (data : bytes) : outcome bytes :=
  let size := len data in
  if size >? 65535 then Raise (MSPException V2PayloadTooLarge)
  else
    let flag := 0 in
    match pack_cat (pack_BHH flag code size) (Return data) with
    | Raise e => Raise e
    | Return header_payload =>
        let crc := _calculate_crc_v2 header_payload in
        pack_cat (Return (MSP_V2_HEADER ++ header_payload)) (bytes_of [crc])
    end.

(** [self.ser.write(packet)] under [except serial.SerialException]. *)
Definition write_packet (packet : bytes) : M Serial unit :=
  try_except (ser_write packet) is_serial_exception (raise (MSPException SendFailed)).

Definition send_msp_v1 (code : Z) (data : bytes) : M ConnectionManager unit :=
  fun c =>
    match ser c with
    | None => (Raise (MSPException NotConnected), c)
    | Some s =>
        match encode_v1 code data with
        | Raise e => (Raise e, c)
        | Return packet => on_ser (write_packet packet) c s
        end
    end.

Definition send_msp_v2 (code : Z) (data : bytes) : M ConnectionManager unit :=
  fun c =>
    match ser c with
    | None => (Raise (MSPException NotConnected), c)
    | Some s =>
        match encode_v2 code data with
        | Raise e => (Raise e, c)
        | Return packet => on_ser (write_packet packet) c s
        end
    end.

Definition send_msp (code : Z) (data : bytes) (force_v1 : bool) : M ConnectionManager unit :=
  fun c =>
    if msp_v2_supported c && negb force_v1 && (len data <=? 65535)
    then send_msp_v2 code data c
    else send_msp_v1 code data c.

Definition response := (option Z * option bytes)%type.

Definition parse_errors (e : exn) : bool :=
  match e with StructError | TypeError => true | _ => false end.

(** The two decoders run on the port that [read_response] found open, so
    their [if not self.ser] guard is not taken. *)
Definition _read_v1_response : M Serial response :=
  try_except
    (let* b := ser_read 1 in let* size := lift (ord b) in
     let* b := ser_read 1 in let* code := lift (ord b) in
     let* data := ser_read size in
     let* b := ser_read 1 in let* chk := lift (ord b) in
     let expected_chk := _calculate_checksum_v1 size code data in
     if negb (chk =? expected_chk) then ret (None, None)
     else ret (Some code, Some data))
    parse_errors
    (ret (None, None)).

Definition _read_v2_response : M Serial response :=
  try_except
    (let* b := ser_read 1 in let* flag := lift (ord b) in
     let* b := ser_read 4 in let* (code, size) := lift (unpack_HH b) in
     let* data := ser_read size in
     let* b := ser_read 1 in let* crc := lift (ord b) in
     let* header_payload :=
       lift (pack_cat (bytes_of [flag]) (pack_cat (pack_HH code size) (Return data))) in
     let expected_crc := _calculate_crc_v2 header_payload in
     if negb (crc =? expected_crc) then ret (None, None)
     else ret (Some code, Some data))
    parse_errors
    (ret (None, None)).

(** The [while] loop of [read_response]; [polls] is how many more times
    its deadline test succeeds. *)
Fixpoint scan_header (polls : nat) : M Serial response :=
  match polls with
  | O => ret (None, None)
  | S k =>
      let* byte := ser_read 1 in
      match byte with
      | [] => scan_header k
      | _ =>
          if bool_decide (byte = ["$"%byte]) then
            let* rest := ser_read 2 in
            let header := "$"%byte :: rest in
            if bool_decide (header = MSP_V1_RESPONSE) then _read_v1_response
            else if bool_decide (header = MSP_V2_RESPONSE) then _read_v2_response
            else if bool_decide (header = MSP_ERROR) then ret (None, None)
            else scan_header k
          else scan_header k
      end
  end.

(** [timeout or self.timeout] *)
Definition deadline (timeout : option nat) (c : ConnectionManager) : nat :=
  match timeout with
  | Some (S t) => S t
  | _ => Core.timeout c
  end.

(** The port's own [timeout] attribute, which the method sets and its
    [finally] clause restores, has no effect on a scripted port and is
    left out. *)
Definition read_response (timeout : option nat) : M ConnectionManager response :=
  fun c =>
    match ser c with
    | None => (Raise (MSPException NotConnected), c)
    | Some s =>
        on_ser (try_except (scan_header (deadline timeout c)) is_serial_exception
                  (raise (MSPException ReadFailed))) c s
    end.

Definition close (c : ConnectionManager) : ConnectionManager :=
  mkConn None (timeout c) (msp_v2_supported c) (fc_type c).

End Core.

(** ** msp_constants.py *)

Module MSPCommands.
Definition MSP_WP : Z := 118.
Definition MSP_SET_WP : Z := 209.
End MSPCommands.

(** ** Floats as mission.py uses them *)

(** [int(x)] of a float: truncation toward zero; [ValueError] on a NaN,
    [OverflowError] on an infinity. *)
Definition py_int (x : float) : outcome Z :=
  match Prim2SF x with
  | S754_zero _ => Return 0
  | S754_infinity _ => Raise OverflowError
  | S754_nan => Raise ValueError
  | S754_finite s m e =>
      let mag := Z.shiftl (Z.pos m) e in
      Return (if s then - mag else mag)
  end.

(** [float(z)] for an integer below [2^63] in magnitude (exact below
    [2^53], which covers every 32-bit field). *)
Definition py_float (z : Z) : float :=
  if z <? 0 then PrimFloat.opp (PrimFloat.of_uint63 (Uint63.of_Z (- z)))
  else PrimFloat.of_uint63 (Uint63.of_Z z).

(** [x != 0] *)
Definition nonzero (x : float) : bool := negb (PrimFloat.eqb x 0%float).

(** ** JSON documents and the file system

    [json.dump] followed by [json.load] returns the document it was
    given: Python writes a float by its shortest round-tripping decimal
    and an integer exactly.  A file is therefore the document it holds. *)
Inductive json :=
| JNull
| JBool (b : bool)
| JInt (z : Z)
| JFloat (x : float)
| JString (s : string)
| JList (l : list json)
| JObject (o : gmap string json).

Abbreviation FileSystem := (gmap string json).

(** [d[key]] *)
Definition getitem (d : json) (key : string) : outcome json :=
  match d with
  | JObject o => match o !! key with
                 | Some v => Return v
                 | None => Raise KeyError
                 end
  | _ => Raise TypeError
  end.

(** [d.get(key, default)] *)
Definition dict_get (d : json) (key : string) (default : json) : outcome json :=
  match d with
  | JObject o => match o !! key with
                 | Some v => Return v
                 | None => Return default
                 end
  | _ => Raise AttributeError
  end.

(** The items a [for] loop over a JSON value visits. *)
Definition iterate (j : json) : outcome (list json) :=
  match j with
  | JList l => Return l
  | JObject o => Return ((fun kv => JString (fst kv)) <$> map_to_list o)
  | JString s => Return ((fun a => JString (String a EmptyString)) <$> list_ascii_of_string s)
  | _ => Raise TypeError
  end.

(** ** The part of [math] that mission.py calls and Rocq's floats lack *)
Class Libm := {
  math_sin : float -> outcome float;     (* [ValueError] on an infinity *)
  math_cos : float -> outcome float;
  math_atan2 : float -> float -> float
}.

(** [math.radians(x)] is [x * (pi / 180)]. *)
Definition math_radians (x : float) : float :=
  (x * (0x1.921fb54442d18p+1 / 180))%float.

(** [math.sqrt(x)]: a [ValueError] below zero. *)
Definition math_sqrt (x : float) : outcome float :=
  if (x <? 0)%float then Raise ValueError else Return (PrimFloat.sqrt x).

(** ** mission.py *)

Module Planning.

Record Waypoint := mkWaypoint {
  lat : float;
  lon : float;
  alt : float;
  action : Z;
  param1 : Z;
  param2 : Z;
  param3 : Z;
  flag : Z
}.

(** The record is typed as the annotations of [Waypoint.__init__] say:
    floats for the position, integers for the rest. *)
Definition to_dict (w : Waypoint) : json :=
  JObject (<["lat" := JFloat (lat w)]> (<["lon" := JFloat (lon w)]>
          (<["alt" := JFloat (alt w)]> (<["action" := JInt (action w)]>
          (<["param1" := JInt (param1 w)]> (<["param2" := JInt (param2 w)]>
          (<["param3" := JInt (param3 w)]> (<["flag" := JInt (flag w)]> ∅)))))))).

Definition obind {A B} (o : outcome A) (k : A -> outcome B) : outcome B :=
  match o with Return a => k a | Raise e => Raise e end.

(** [Waypoint(lat=..., ..., flag=...)].  The constructor stores the
    values it is given, whatever their types, and never raises.  The
    record above holds the object it builds when every value is of the
    annotated type; an object with a value of another type in some field
    (an integer altitude, a fractional parameter, a string) is one the
    record cannot hold, and the result is [None]: the call has returned,
    and the embedding does not follow that object. *)
Definition typed_float (j : json) : option float :=
  match j with JFloat x => Some x | _ => None end.
Definition typed_int (j : json) : option Z :=
  match j with JInt z => Some z | _ => None end.

Definition new_waypoint (lat lon alt action param1 param2 param3 flag : json)
    : option Waypoint :=
  lat ← typed_float lat; lon ← typed_float lon; alt ← typed_float alt;
  action ← typed_int action; param1 ← typed_int param1; param2 ← typed_int param2;
  param3 ← typed_int param3; flag ← typed_int flag;
  Some (mkWaypoint lat lon alt action param1 param2 param3 flag).

(** [Waypoint.from_dict]: three subscripts, which raise on a missing key
    or on a value that is no dictionary, five [get]s with their
    defaults, and the constructor.  No type is tested. *)
Definition from_dict (data : json) : outcome (option Waypoint) :=
  obind (getitem data "lat") (fun lat =>
  obind (getitem data "lon") (fun lon =>
  obind (getitem data "alt") (fun alt =>
  obind (dict_get data "action" (JInt 1)) (fun action =>
  obind (dict_get data "param1" (JInt 0)) (fun param1 =>
  obind (dict_get data "param2" (JInt 0)) (fun param2 =>
  obind (dict_get data "param3" (JInt 0)) (fun param3 =>
  obind (dict_get data "flag" (JInt 0)) (fun flag =>
  Return (new_waypoint lat lon alt action param1 param2 param3 flag))))))))).

Definition MAX_WAYPOINTS : Z := 60.

Record Mission := mkMission {
  conn : Core.ConnectionManager;
  fc_type : Core.FlightController;
  waypoints : list Waypoint;
  _mission_loaded : bool
}.

(** [Mission(conn)] *)
Definition new (c : Core.ConnectionManager) : Mission :=
  mkMission c (Core.fc_type c) [] false.

Definition set_conn (self : Mission) (c : Core.ConnectionManager) : Mission :=
  mkMission c (fc_type self) (waypoints self) (_mission_loaded self).
Definition set_waypoints (self : Mission) (ws : list Waypoint) : Mission :=
  mkMission (conn self) (fc_type self) ws (_mission_loaded self).
Definition set_loaded (self : Mission) (b : bool) : Mission :=
  mkMission (conn self) (fc_type self) (waypoints self) b.

(** [try: m except Exception: return failed] *)
Definition run_or {A} (m : M Core.ConnectionManager A) (failed : A)
    (c : Core.ConnectionManager) : A * Core.ConnectionManager :=
  match m c with
  | (Return a, c') => (a, c')
  | (Raise _, c') => (failed, c')
  end.

(** A method that uses nothing of [self] but [self.conn]. *)
Definition on_conn {A} (f : Core.ConnectionManager -> A * Core.ConnectionManager)
    (self : Mission) : A * Mission :=
  let '(a, c) := f (conn self) in (a, set_conn self c).

Definition validate_coordinates (lat lon alt : float) : bool :=
  if negb ((-90 <=? lat) && (lat <=? 90))%float then false
  else if negb ((-180 <=? lon) && (lon <=? 180))%float then false
  else if negb ((-1000 <=? alt) && (alt <=? 10000))%float then false
  else true.

(** [struct.unpack('<BBiiihhhB', b)] *)
Definition unpack_waypoint (b : bytes) : outcome (Z * Z * Z * Z * Z * Z * Z * Z * Z) :=
  if len b =? 21 then
    Return (unpack_unsigned (take 1 b),
            unpack_unsigned (take 1 (drop 1 b)),
            unpack_signed (take 4 (drop 2 b)),
            unpack_signed (take 4 (drop 6 b)),
            unpack_signed (take 4 (drop 10 b)),
            unpack_signed (take 2 (drop 14 b)),
            unpack_signed (take 2 (drop 16 b)),
            unpack_signed (take 2 (drop 18 b)),
            unpack_unsigned (take 1 (drop 20 b)))
  else Raise StructError.

(** [struct.unpack('<iii', b)] *)
Definition unpack_iii (b : bytes) : outcome (Z * Z * Z) :=
  if len b =? 12 then
    Return (unpack_signed (take 4 b),
            unpack_signed (take 4 (drop 4 b)),
            unpack_signed (take 4 (drop 8 b)))
  else Raise StructError.

(** What [get_waypoint] makes of a response. *)
Definition decode_waypoint (wp_id : Z) (r : Core.response) : outcome (option Waypoint) :=
  match r with
  | (Some code, Some response_data) =>
      if (code =? MSPCommands.MSP_WP) && negb (len response_data =? 0) then
        if len response_data >=? 21 then
          obind (unpack_waypoint (take 21 response_data))
            (fun '(wp_id_resp, action, lat, lon, alt, param1, param2, param3, flag) =>
               if wp_id_resp =? wp_id then
                 Return (Some (mkWaypoint (py_float lat / 1e7) (py_float lon / 1e7)
                                          (py_float alt / 100)
                                          action param1 param2 param3 flag))
               else Return None)
        else if len response_data >=? 12 then
          obind (unpack_iii (take 12 response_data))
            (fun '(lat, lon, alt) =>
               Return (Some (mkWaypoint (py_float lat / 1e7) (py_float lon / 1e7)
                                        (py_float alt / 100) 1 0 0 0 0)))
        else Return None
      else Return None
  | _ => Return None
  end.

(** The body of [get_waypoint], on [self.conn]. *)
Definition read_waypoint (wp_id : Z) (c : Core.ConnectionManager)
    : option Waypoint * Core.ConnectionManager :=
  if (wp_id <? 0) || (wp_id >=? MAX_WAYPOINTS) then (None, c)
  else
    run_or
      (let* data := lift (pack_B wp_id) in
       let* _ := Core.send_msp MSPCommands.MSP_WP data false in
       let* r := Core.read_response None in
       lift (decode_waypoint wp_id r))
      None c.

Definition get_waypoint (wp_id : Z) : Mission -> option Waypoint * Mission :=
  on_conn (read_waypoint wp_id).

(** [struct.pack('<BBiiihhhB', wp_id, action, int(lat * 1e7), ...)] *)
Definition pack_waypoint (wp_id : Z) (w : Waypoint) : outcome bytes :=
  obind (py_int (lat w * 1e7)) (fun ilat =>
  obind (py_int (lon w * 1e7)) (fun ilon =>
  obind (py_int (alt w * 100)) (fun ialt =>
  pack_cat (pack_B wp_id) (pack_cat (pack_B (action w))
  (pack_cat (pack_i ilat) (pack_cat (pack_i ilon) (pack_cat (pack_i ialt)
  (pack_cat (pack_h (param1 w)) (pack_cat (pack_h (param2 w))
  (pack_cat (pack_h (param3 w)) (pack_B (flag w))))))))))))%float.

(** The tolerance test of the verification read. *)
Definition verification_failed (verification waypoint : Waypoint) : bool :=
  let lat_diff := PrimFloat.abs (lat verification - lat waypoint) in
  let lon_diff := PrimFloat.abs (lon verification - lon waypoint) in
  let alt_diff := PrimFloat.abs (alt verification - alt waypoint) in
  ((1e-6 <? lat_diff) || (1e-6 <? lon_diff) || (0.1 <? alt_diff))%float.

(** The body of [set_waypoint], on [self.conn].  [time.sleep(0.1)]
    has no counterpart on a scripted port. *)
Definition write_waypoint (wp_id : Z) (waypoint : Waypoint) (validate : bool)
    (c : Core.ConnectionManager) : bool * Core.ConnectionManager :=
  if (wp_id <? 0) || (wp_id >=? MAX_WAYPOINTS) then (false, c)
  else if validate
          && negb (validate_coordinates (lat waypoint) (lon waypoint) (alt waypoint))
  then (false, c)
  else
    let '(sent, c1) :=
      run_or
        (let* data := lift (pack_waypoint wp_id waypoint) in
         let* _ := Core.send_msp MSPCommands.MSP_SET_WP data false in
         ret true)
        false c in
    if negb sent then (false, c1)
    else if validate then
      let '(verification, c2) := read_waypoint wp_id c1 in
      match verification with
      | Some v => if verification_failed v waypoint then (false, c2) else (true, c2)
      | None => (true, c2)
      end
    else (true, c1).

Definition set_waypoint (wp_id : Z) (waypoint : Waypoint) (validate : bool)
    : Mission -> bool * Mission :=
  on_conn (write_waypoint wp_id waypoint validate).

Definition add_waypoint (lat lon alt : float) (action param1 param2 param3 flag : Z)
    (self : Mission) : bool * Mission :=
  if len (waypoints self) >=? MAX_WAYPOINTS then (false, self)
  else if negb (validate_coordinates lat lon alt) then (false, self)
  else
    let waypoint := mkWaypoint lat lon alt action param1 param2 param3 flag in
    (true, set_waypoints self (waypoints self ++ [waypoint])).

Definition insert_waypoint (index : Z) (lat lon alt : float)
    (action param1 param2 param3 flag : Z) (self : Mission) : bool * Mission :=
  if (index <? 0) || (index >? len (waypoints self)) then (false, self)
  else if len (waypoints self) >=? MAX_WAYPOINTS then (false, self)
  else if negb (validate_coordinates lat lon alt) then (false, self)
  else
    let waypoint := mkWaypoint lat lon alt action param1 param2 param3 flag in
    let i := Z.to_nat index in
    (true, set_waypoints self (take i (waypoints self) ++ waypoint :: drop i (waypoints self))).

Definition remove_waypoint (index : Z) (self : Mission) : bool * Mission :=
  if (index <? 0) || (index >=? len (waypoints self)) then (false, self)
  else (true, set_waypoints self (delete (Z.to_nat index) (waypoints self))).

Definition clear_mission (self : Mission) : bool * Mission :=
  (true, set_loaded (set_waypoints self []) false).

(** [range(a, b)] *)
Definition py_range (a b : Z) : list Z := seqZ a (b - a).

(** [Waypoint(0, 0, 0, 0)] *)
Definition empty_wp : Waypoint := mkWaypoint 0 0 0 0 0 0 0 0.

(** The [for i, waypoint in enumerate(self.waypoints)] loop of
    [upload_mission], from index [i] on; [None] is its [return False]. *)
Fixpoint upload_loop (validate : bool) (i : Z) (ws : list Waypoint) (success_count : Z)
    (self : Mission) : option Z * Mission :=
  match ws with
  | [] => (Some success_count, self)
  | waypoint :: rest =>
      let '(ok, self1) := set_waypoint i waypoint validate self in
      if ok then upload_loop validate (i + 1) rest (success_count + 1) self1
      else if validate then (None, self1)
      else upload_loop validate (i + 1) rest success_count self1
  end.

(** The loop that writes empty waypoints over the slots [ids]. *)
Fixpoint clear_loop (ids : list Z) (self : Mission) : Mission :=
  match ids with
  | [] => self
  | i :: rest => clear_loop rest (snd (set_waypoint i empty_wp false self))
  end.

(** The slots [upload_mission] clears after [success_count] writes. *)
Definition slots_to_clear (success_count : Z) : list Z :=
  if success_count <? MAX_WAYPOINTS
  then py_range success_count (Z.min (success_count + 5) MAX_WAYPOINTS)
  else [].

Definition upload_mission (validate : bool) (self : Mission) : bool * Mission :=
  match waypoints self with
  | [] => (false, self)
  | _ =>
      let total_waypoints := len (waypoints self) in
      match upload_loop validate 0 (waypoints self) 0 self with
      | (None, self1) => (false, self1)
      | (Some success_count, self1) =>
          let self2 := clear_loop (slots_to_clear success_count) self1 in
          if success_count =? total_waypoints then (true, set_loaded self2 true)
          else (false, self2)
      end
  end.

(** The [for i in range(self.MAX_WAYPOINTS)] loop of [download_mission]. *)
Fixpoint download_loop (ids : list Z) (self : Mission) : Mission :=
  match ids with
  | [] => self
  | i :: rest =>
      let '(waypoint, self1) := get_waypoint i self in
      match waypoint with
      | Some w =>
          if nonzero (lat w) || nonzero (lon w)
          then download_loop rest (set_waypoints self1 (waypoints self1 ++ [w]))
          else self1
      | None => self1
      end
  end.

Definition download_mission (self : Mission) : bool * Mission :=
  let self0 := set_waypoints self [] in
  let self1 := download_loop (py_range 0 MAX_WAYPOINTS) self0 in
  (true, set_loaded self1 true).

Definition fc_type_name (t : Core.FlightController) : string :=
  match t with
  | Core.INAV => "INAV"
  | Core.BETAFLIGHT => "BETAFLIGHT"
  | Core.CLEANFLIGHT => "CLEANFLIGHT"
  end.

Section MissionFiles.
Context {libm : Libm}.

Definition _calculate_distance (lat1 lon1 lat2 lon2 : float) : outcome float :=
  let R := 6371000%float in
  let lat1_rad := math_radians lat1 in
  let lat2_rad := math_radians lat2 in
  let delta_lat := math_radians (lat2 - lat1) in
  let delta_lon := math_radians (lon2 - lon1) in
  obind (math_sin (delta_lat / 2)) (fun s1 =>
  obind (math_sin (delta_lat / 2)) (fun s2 =>
  obind (math_cos lat1_rad) (fun c1 =>
  obind (math_cos lat2_rad) (fun c2 =>
  obind (math_sin (delta_lon / 2)) (fun s3 =>
  obind (math_sin (delta_lon / 2)) (fun s4 =>
  let a := (s1 * s2 + c1 * c2 * s3 * s4)%float in
  obind (math_sqrt a) (fun ra =>
  obind (math_sqrt (1 - a)) (fun rb =>
  let c := (2 * math_atan2 ra rb)%float in
  Return (R * c)%float)))))))).

(** [min(a, b)] and [max(a, b)] of two floats. *)
Definition py_min (a b : float) : float := if (b <? a)%float then b else a.
Definition py_max (a b : float) : float := if (a <? b)%float then b else a.

(** The statistics loop of [get_mission_info]: [prev] is the waypoint
    before [ws], if any. *)
Fixpoint info_loop (prev : option Waypoint) (ws : list Waypoint)
    (total_distance min_alt max_alt : float) : outcome (float * float * float) :=
  match ws with
  | [] => Return (total_distance, min_alt, max_alt)
  | wp :: rest =>
      let min_alt := py_min min_alt (alt wp) in
      let max_alt := py_max max_alt (alt wp) in
      match prev with
      | Some prev_wp =>
          obind (_calculate_distance (lat prev_wp) (lon prev_wp) (lat wp) (lon wp))
            (fun d => info_loop (Some wp) rest (total_distance + d) min_alt max_alt)
      | None => info_loop (Some wp) rest total_distance min_alt max_alt
      end
  end.

Definition get_mission_info (self : Mission) : outcome json :=
  match waypoints self with
  | [] => Return (JObject (<["waypoint_count" := JInt 0]>
                          (<["mission_loaded" := JBool (_mission_loaded self)]> ∅)))
  | _ =>
      obind (info_loop None (waypoints self) 0 infinity neg_infinity)
        (fun '(total_distance, min_alt, max_alt) =>
           let finite := negb (PrimFloat.eqb min_alt infinity) in
           Return (JObject
             (<["waypoint_count" := JInt (len (waypoints self))]>
             (<["mission_loaded" := JBool (_mission_loaded self)]>
             (<["total_distance_m" := JFloat total_distance]>
             (<["min_altitude_m" := if finite then JFloat min_alt else JInt 0]>
             (<["max_altitude_m" := if negb (PrimFloat.eqb max_alt neg_infinity)
                                    then JFloat max_alt else JInt 0]>
             (<["altitude_range_m" := if finite then JFloat (max_alt - min_alt)
                                      else JInt 0]> ∅))))))))
  end.

(** [now] is what [time.time()] returns.  The file system takes every
    write. *)
Definition save_mission_to_file (filename : string) (now : float) (self : Mission)
    (fs : FileSystem) : bool * FileSystem :=
  match get_mission_info self with
  | Raise _ => (false, fs)
  | Return info =>
      let mission_data :=
        JObject (<["version" := JString "1.0"]>
                (<["fc_type" := JString (fc_type_name (fc_type self))]>
                (<["created" := JFloat now]>
                (<["waypoints" := JList (to_dict <$> waypoints self)]>
                (<["info" := info]> ∅))))) in
      (true, <[filename := mission_data]> fs)
  end.

End MissionFiles.

(** The [for wp_data in ...] loop of [load_mission_from_file]; an
    exception leaves what was appended before it.  When [from_dict]
    returns an object that the record [Waypoint] cannot hold, the source
    appends it and goes on; the mission is then outside the embedding,
    and the result is [None]. *)
Fixpoint load_loop (items : list json) (self : Mission) : option (bool * Mission) :=
  match items with
  | [] => Some (true, self)
  | wp_data :: rest =>
      match from_dict wp_data with
      | Return (Some waypoint) =>
          load_loop rest (set_waypoints self (waypoints self ++ [waypoint]))
      | Return None => None
      | Raise _ => Some (false, self)
      end
  end.

Definition load_mission_from_file (filename : string) (self : Mission) (fs : FileSystem)
    : option (bool * Mission) :=
  match fs !! filename with
  | None => Some (false, self)
  | Some mission_data =>
      let self1 := snd (clear_mission self) in
      match obind (dict_get mission_data "waypoints" (JList [])) iterate with
      | Raise _ => Some (false, self1)
      | Return items => load_loop items self1
      end
  end.

(** *** What reaches the device

    The log of written packets is how the theorems below say what a
    mission operation has sent. *)

(** The packets written so far on the connection. *)
Definition sent (c : Core.ConnectionManager) : list bytes :=
  match Core.ser c with
  | Some s => Core.tx s
  | None => []
  end.

(** The connection is open and its port takes writes. *)
Definition healthy (c : Core.ConnectionManager) : bool :=
  match Core.ser c with
  | Some s => negb (Core.tx_fault s)
  | None => false
  end.

(** The packet [send_msp(code, data)] builds on a link whose negotiated
    version flag is [v2]. *)
Definition request (v2 : bool) (code : Z) (data : bytes) : outcome bytes :=
  if v2 && negb false && (len data <=? 65535)
  then Core.encode_v2 code data
  else Core.encode_v1 code data.

Definition request_packet (v2 : bool) (code : Z) (data : bytes) : bytes :=
  match request v2 code data with
  | Return packet => packet
  | Raise _ => []
  end.

(** The packet that writes [w] into slot [i], and the one that asks for
    slot [i]. *)
Definition set_wp_packet (v2 : bool) (i : Z) (w : Waypoint) : bytes :=
  match pack_waypoint i w with
  | Return data => request_packet v2 MSPCommands.MSP_SET_WP data
  | Raise _ => []
  end.

Definition get_wp_packet (v2 : bool) (i : Z) : bytes :=
  request_packet v2 MSPCommands.MSP_WP (le_bytes 1 i).

(** The packets of writing, and reading back, the waypoints [ws] into
    the slots from [i] on. *)
Fixpoint verified_writes (v2 : bool) (i : Z) (ws : list Waypoint) : list bytes :=
  match ws with
  | [] => []
  | w :: rest =>
      set_wp_packet v2 i w :: get_wp_packet v2 i :: verified_writes v2 (i + 1) rest
  end.

(** [c'] is [c] after the packets [l] were written: same link, longer
    log. *)
Definition extends (c : Core.ConnectionManager) (l : list bytes)
    (c' : Core.ConnectionManager) : Prop :=
  healthy c' = healthy c
  /\ Core.msp_v2_supported c' = Core.msp_v2_supported c
  /\ sent c' = sent c ++ l.

(** Successive reads of the slots from [i] on return the waypoints [ws],
    none of them at latitude and longitude zero, and leave the connection
    as [c']. *)
Fixpoint slots_hold (i : Z) (ws : list Waypoint) (c c' : Core.ConnectionManager) : Prop :=
  match ws with
  | [] => c' = c
  | w :: rest =>
      exists c1, read_waypoint i c = (Some w, c1)
                 /\ nonzero (lat w) || nonzero (lon w) = true
                 /\ slots_hold (i + 1) rest c1 c'
  end.

Definition get_waypoint_count (self : Mission) : Z := len (waypoints self).
Definition is_mission_loaded (self : Mission) : bool := _mission_loaded self.

End Planning.

(** ** The frame formats as the specification words them *)

Module Spec.

(** XOR-fold of the payload bytes. *)
Definition fold_xor (payload : list Z) : Z := fold_right Z.lxor 0 payload.

(** V1 request: ['$','M','<'], size, code, payload, checksum. *)
Definition v1_frame (code : Z) (payload : list Z) : list Z :=
  let size := len payload in
  [36; 77; 60] ++ [size] ++ [code] ++ payload
  ++ [Z.lxor (Z.lxor size code) (fold_xor payload)].

(** One bit of CRC-8/DVB-S2: shift left, XOR with 0xD5 if the top bit
    was set, mask to 8 bits. *)
Definition crc8_bit (v : Z) : Z :=
  let shifted := 2 * v in
  (if Z.testbit v 7 then Z.lxor shifted 0xD5 else shifted) mod 2 ^ 8.

(** For each byte, XOR it into the running value, then eight bit steps. *)
Definition crc8_dvb_s2 (message : list Z) : Z :=
  fold_left (fun crc b => Nat.iter 8 crc8_bit (Z.lxor crc b)) message 0.

(** [v] as an unsigned 16-bit little-endian pair. *)
Definition u16_le (v : Z) : list Z := [v mod 256; v / 256].

(** V2 request: ['$','X','<'], flag 0, code, size, payload, CRC. *)
Definition v2_frame (code : Z) (payload : list Z) : list Z :=
  let covered := [0] ++ u16_le code ++ u16_le (len payload) ++ payload in
  [36; 88; 60] ++ covered ++ [crc8_dvb_s2 covered].

(** The slots [n..min(n+5, 60)] with both ends included, the way the
    specification writes its other ranges ([0..N-1], [0..59]). *)
Definition window_closed (n : Z) : list Z := seqZ n (Z.min (n + 5) 60 - n + 1).

(** The slots from [n] up to, not including, [min(n+5, 60)]. *)
Definition window_half_open (n : Z) : list Z := seqZ n (Z.min (n + 5) 60 - n).

End Spec.

(** ** Scripted devices and sample missions *)

Module Fixtures.
Import Core.

(** A response frame as a device sends it, V1 framing. *)
Definition v1_response (code : Z) (data : bytes) : list rx_event :=
  RxByte <$> (MSP_V1_RESPONSE ++ [byte_of_Z (len data); byte_of_Z code] ++ data
              ++ [byte_of_Z (_calculate_checksum_v1 (len data) code data)]).

(** An open port with nothing to read. *)
Definition quiet_port : Serial := mkSerial [] [] false.
Definition quiet_conn : ConnectionManager := mkConn (Some quiet_port) 5 false INAV.

(** An open V1 connection whose device will send [evs]; the deadline of a
    read is five passes of the header loop. *)
Definition conn_reading (evs : list rx_event) : ConnectionManager :=
  mkConn (Some (mkSerial evs [] false)) 5 false INAV.

(** Four passes of the header loop that find no header: a stray byte,
    a ['$'] followed by two bytes of no known header, a ['$'] that the
    device leaves alone, and a ['$','M'] that it leaves unfinished. *)
Definition false_starts : list gap :=
  [Stray "a"; FalseStart "a" "b"; Torn None; Torn (Some "M")]%byte.

(** After them, a V1 response to code 118 with payload [3] and a wrong
    checksum. *)
Definition v1_bad_checksum : list rx_event :=
  gaps_events false_starts ++ (RxByte <$> ["$"; "M"; ">"; "001"; "v"; "003"; "000"]%byte).

(** After them, a V2 response to code 118 with payload [3] and a wrong
    CRC. *)
Definition v2_bad_crc : list rx_event :=
  gaps_events false_starts
  ++ (RxByte <$> ["$"; "X"; ">"; "000"; "v"; "000"; "001"; "000"; "003"; "000"]%byte).

(** After them, the error header. *)
Definition rejected : list rx_event :=
  gaps_events false_starts ++ (RxByte <$> ["$"; "M"; "!"]%byte).

(** After them and one more timeout, a valid V1 response: it comes after
    the fifth pass. *)
Definition late_frame : list rx_event :=
  gaps_events (false_starts ++ [Silence]) ++ v1_response 118 ["003"%byte].

Import Planning.

Definition sample_wp : Waypoint := mkWaypoint 47.6062 (-122.3321) 50 1 500 0 0 0.

(** The same place one degree further north. *)
Definition other_wp : Waypoint := mkWaypoint 48.6062 (-122.3321) 50 1 500 0 0 0.

(** The 21-byte payload that carries [w] for slot [i]. *)
Definition wp_payload (i : Z) (w : Waypoint) : bytes :=
  match pack_waypoint i w with
  | Return data => data
  | Raise _ => []
  end.

(** The device's answer to a read of slot [i] that holds [w]. *)
Definition wp_response (i : Z) (w : Waypoint) : list rx_event :=
  v1_response MSPCommands.MSP_WP (wp_payload i w).

(** A mission of one waypoint on a silent device, and the stages of
    writing that waypoint with verification. *)
Definition silent_mission : Mission := set_waypoints (new quiet_conn) [sample_wp].
Definition silent_payload : bytes := Eval vm_compute in wp_payload 0 sample_wp.
Definition silent_after_write : ConnectionManager :=
  Eval vm_compute in
    snd (send_msp MSPCommands.MSP_SET_WP silent_payload false quiet_conn).
Definition silent_after_readback : Mission :=
  Eval vm_compute in snd (get_waypoint 0 (set_conn silent_mission silent_after_write)).

(** A mission of five waypoints on a device that echoes slots 0 to 2
    and answers the read-back of slot 3 with another position. *)
Definition drifting_device : list rx_event :=
  wp_response 0 sample_wp ++ wp_response 1 sample_wp ++ wp_response 2 sample_wp
  ++ wp_response 3 other_wp.
Definition five_mission : Mission :=
  set_waypoints (new (conn_reading drifting_device))
    [sample_wp; sample_wp; sample_wp; sample_wp; sample_wp].
Definition five_after_three : Mission :=
  Eval vm_compute in
    snd (upload_loop true 0 [sample_wp; sample_wp; sample_wp] 0 five_mission).
Definition five_payload : bytes := Eval vm_compute in wp_payload 3 sample_wp.
Definition five_after_write : ConnectionManager :=
  Eval vm_compute in
    snd (send_msp MSPCommands.MSP_SET_WP five_payload false (conn five_after_three)).
Definition five_readback : Waypoint :=
  Eval vm_compute in
    match fst (read_waypoint 3 five_after_write) with
    | Some v => v
    | None => empty_wp
    end.
Definition five_after_readback : ConnectionManager :=
  Eval vm_compute in snd (read_waypoint 3 five_after_write).

(** A device that holds three waypoints in slots 0 to 2 and an all-zero
    waypoint in slot 3. *)
Definition three_then_zero : list rx_event :=
  wp_response 0 sample_wp ++ wp_response 1 other_wp ++ wp_response 2 sample_wp
  ++ wp_response 3 empty_wp.
Definition three_mission : Mission := new (conn_reading three_then_zero).
Definition three_waypoints : list Waypoint :=
  Eval vm_compute in waypoints (snd (download_mission three_mission)).
Definition three_before_sentinel : ConnectionManager :=
  Eval vm_compute in
    conn (download_loop [0; 1; 2] three_mission).
Definition three_after_sentinel : ConnectionManager :=
  Eval vm_compute in snd (read_waypoint 3 three_before_sentinel).

(** A device that answers the read of slot 0 and then falls silent. *)
Definition fading_mission : Mission := new (conn_reading (wp_response 0 sample_wp)).
Definition fading_first : Waypoint :=
  Eval vm_compute in
    match fst (read_waypoint 0 (conn fading_mission)) with
    | Some w => w
    | None => empty_wp
    end.
Definition fading_after_first : ConnectionManager :=
  Eval vm_compute in snd (read_waypoint 0 (conn fading_mission)).
Definition fading_after_silence : ConnectionManager :=
  Eval vm_compute in snd (read_waypoint 1 fading_after_first).
Definition fading_after_request : ConnectionManager :=
  Eval vm_compute in
    snd (send_msp MSPCommands.MSP_WP (le_bytes 1 0) false (conn fading_mission)).

(** A connection that was closed, and a mission on it. *)
Definition closed_conn : ConnectionManager := close quiet_conn.
Definition closed_mission : Mission := set_waypoints (new closed_conn) [sample_wp].

(** A waypoint whose first parameter does not fit 16 bits, and a mission
    that starts with it. *)
Definition unpackable_wp : Waypoint := mkWaypoint 47.6062 (-122.3321) 50 1 40000 0 0 0.
Definition patchy_mission : Mission :=
  set_waypoints (new quiet_conn) [unpackable_wp; sample_wp].
Definition patchy_after_loop : Mission :=
  Eval vm_compute in
    snd (upload_loop false 0 [unpackable_wp; sample_wp] 0 patchy_mission).

(** A mission of 61 waypoints in memory. *)
Definition crowded_mission : Mission :=
  set_waypoints (new quiet_conn) (replicate 61 sample_wp).

(** Two places, and a third whose latitude is out of range. *)
Definition here : float * float * float := (47.6062, -122.3321, 50)%float.
Definition there : float * float * float := (48.6062, -122.3321, 60)%float.
Definition nowhere : float * float * float := (95, 0, 10)%float.

(** A mission file whose second entry lacks its latitude. *)
Definition torn_entry : json :=
  JObject (<["lon" := JFloat 1]> (<["alt" := JFloat 2]> ∅)).
Definition torn_file : gmap string json :=
  <["waypoints" := JList ((to_dict <$> [sample_wp]) ++ torn_entry :: [to_dict other_wp])]> ∅.
Definition torn_disk : FileSystem := <["torn.json" := JObject torn_file]> ∅.

(** A waypoint entry that gives the position only. *)
Definition bare_entry : gmap string json :=
  <["lat" := JFloat 1]> (<["lon" := JFloat 2]> (<["alt" := JFloat 3]> ∅)).

(** Asking the same device for slot 1: it answers with slot 0. *)
Definition foreign_after_request : ConnectionManager :=
  Eval vm_compute in
    snd (send_msp MSPCommands.MSP_WP (le_bytes 1 1) false (conn fading_mission)).
Definition foreign_after_response : ConnectionManager :=
  Eval vm_compute in snd (read_response None foreign_after_request).

(** A device that answers a read with the 12-byte basic format. *)
Definition basic_payload : bytes := Eval vm_compute in take 12 (drop 2 silent_payload).
Definition basic_mission : Mission :=
  new (conn_reading (v1_response MSPCommands.MSP_WP basic_payload)).
Definition basic_after_request : ConnectionManager :=
  Eval vm_compute in
    snd (send_msp MSPCommands.MSP_WP (le_bytes 1 7) false (conn basic_mission)).
Definition basic_after_response : ConnectionManager :=
  Eval vm_compute in snd (read_response None basic_after_request).

(** A stand-in for the trigonometry of [math], good for short legs:
    [sin x] as [x], [cos x] as [1], [atan2 y x] as [y / x].  The theorems
    hold for every [Libm]; this one only lets examples run. *)
Definition short_leg_libm : Libm :=
  {| math_sin := fun x => Return x;
     math_cos := fun _ => Return 1%float;
     math_atan2 := fun y x => (y / x)%float |}.

(** Two places on the far sides of the globe, both within the bounds
    of [validate_coordinates], and a mission that flies from one to the
    other. *)
Definition west_wp : Waypoint := mkWaypoint 0.08 0 50 1 500 0 0 0.
Definition east_wp : Waypoint := mkWaypoint (-0.08) 180 50 1 500 0 0 0.

(** [math.sin] and [math.cos] at the arguments that the leg between
    these two places passes to them, correctly rounded:
    [sin(-0.0013962634015954637) = -0.0013962629479142763],
    [sin(1.5707963267948966) = 1.0] and
    [cos(0.0013962634015954637) = cos(-0.0013962634015954637)
     = 0.9999990252244151];
    elsewhere the stand-in above. *)
Definition far_leg_libm : Libm :=
  {| math_sin := fun x =>
       if (x =? -0x1.6e05a695f8191p-10)%float then Return (-0x1.6e059ecaa87dcp-10)%float
       else if (x =? 0x1.921fb54442d18p+0)%float then Return 1%float
       else Return x;
     math_cos := fun x =>
       if (abs x =? 0x1.6e05a695f8191p-10)%float then Return 0x1.ffffdf4abdd1ep-1%float
       else Return 1%float;
     math_atan2 := fun y x => (y / x)%float |}.

(** A mission of two waypoints, held in memory only. *)
Definition pair_mission : Mission := set_waypoints (new quiet_conn) [sample_wp; other_wp].

(** The mission from the one far place to the other. *)
Definition far_mission : Mission := set_waypoints (new quiet_conn) [west_wp; east_wp].

(** A mission file that lists 61 waypoints. *)
Definition crowded_file : json :=
  JObject (<["version" := JString "1.0"]>
          (<["waypoints" := JList (to_dict <$> replicate 61 sample_wp)]> ∅)).
Definition crowded_disk : FileSystem := <["crowded.json" := crowded_file]> ∅.

End Fixtures.

(** ** core.py: protocol negotiation *)

Module Negotiation.
Import Core.

Definition set_v2 (c : ConnectionManager) (b : bool) : ConnectionManager :=
  mkConn (ser c) (timeout c) b (fc_type c).

(** [_detect_msp_version]: the probe is the V2 command 1 with no payload;
    the bare [except:] swallows whatever the probe or the read raises. *)
Definition _detect_msp_version (c : ConnectionManager) : ConnectionManager :=
  match send_msp_v2 1 [] c with
  | (Raise _, c1) => c1
  | (Return _, c1) =>
      match read_response None c1 with
      | (Raise _, c2) => c2
      | (Return (code, data), c2) =>
          match code with
          | Some _ => set_v2 c2 true
          | None => c2
          end
      end
  end.

End Negotiation.

(** ** Inverting the CRC step *)

Module CrcInverse.

(** The inverse of one CRC bit step on a byte: the low bit of the result
    tells whether the polynomial was applied. *)
Definition crc_unshift (r : Z) : Z :=
  if Z.odd r then Z.lxor r 213 / 2 + 128 else r / 2.

(** The inverse of the eight bit steps. *)
Definition crc_unwind (r : Z) : Z := Nat.iter 8 crc_unshift r.

End CrcInverse.

(** ** Shapes of incoming streams *)

Module Shapes.

(** What follows the header of a V1 frame that the stream ends inside:
    nothing, the size alone, or the size and the code with fewer bytes
    after them than the payload and the checksum need. *)
Definition v1_cut_short (body : bytes) : Prop :=
  match body with
  | [] => True
  | [size] => True
  | size :: code :: tail => len tail <= byte_to_Z size
  end.

(** The packet of the negotiation probe: V2 command 1, no payload. *)
Definition probe_packet : bytes :=
  Eval vm_compute in
    match Core.encode_v2 1 [] with
    | Return p => p
    | Raise _ => []
    end.

End Shapes.

(** ** mission.py: mission builders and views *)

Module Builders.
Import Planning.

Definition WAYPOINT_ACTION_WAYPOINT : Z := 1.
Definition WAYPOINT_ACTION_RTH : Z := 4.

(** The [for lat, lon, alt in waypoints_coords] loop of
    [create_simple_mission]; [false] is its [return False]. *)
Fixpoint simple_loop (waypoints_coords : list (float * float * float)) (speed : Z)
    (self : Mission) : bool * Mission :=
  match waypoints_coords with
  | [] => (true, self)
  | (lat, lon, alt) :: rest =>
      let '(ok, self1) :=
        add_waypoint lat lon alt WAYPOINT_ACTION_WAYPOINT speed 0 0 0 self in
      if negb ok then (false, self1) else simple_loop rest speed self1
  end.

Definition create_simple_mission (waypoints_coords : list (float * float * float))
    (speed : Z) (self : Mission) : bool * Mission :=
  let self0 := snd (clear_mission self) in
  match simple_loop waypoints_coords speed self0 with
  | (false, self1) => (false, self1)
  | (true, self1) =>
      match last waypoints_coords with
      | Some (last_lat, last_lon, last_alt) =>
          (true, snd (add_waypoint last_lat last_lon last_alt WAYPOINT_ACTION_RTH
                        0 0 0 0 self1))
      | None => (true, self1)
      end
  end.

(** The waypoint [create_simple_mission] makes of a coordinate triple,
    and the return-to-home waypoint it closes the route with. *)
Definition route_wp (speed : Z) (p : float * float * float) : Waypoint :=
  mkWaypoint p.1.1 p.1.2 p.2 WAYPOINT_ACTION_WAYPOINT speed 0 0 0.
Definition home_wp (p : float * float * float) : Waypoint :=
  mkWaypoint p.1.1 p.1.2 p.2 WAYPOINT_ACTION_RTH 0 0 0 0.

Definition valid_coords (p : float * float * float) : bool :=
  validate_coordinates p.1.1 p.1.2 p.2.

(** An entry of a mission file that [Waypoint.from_dict] raises on: a
    value that is no dictionary, or a dictionary without one of the three
    position keys. *)
Definition unreadable (entry : json) : bool :=
  match entry with
  | JObject o =>
      negb (bool_decide (is_Some (o !! "lat")) && bool_decide (is_Some (o !! "lon"))
            && bool_decide (is_Some (o !! "alt")))
  | _ => true
  end.

(** [get_waypoints] *)
Definition get_waypoints (self : Mission) : list json := to_dict <$> waypoints self.

(** What a waypoint becomes on its way through the wire format: the
    position as the fixed-point integers [ilat], [ilon], [ialt] read back
    into floats, the integer fields as they are. *)
Definition wire_image (w : Waypoint) (ilat ilon ialt : Z) : Waypoint :=
  mkWaypoint (py_float ilat / 1e7) (py_float ilon / 1e7) (py_float ialt / 100)
    (action w) (param1 w) (param2 w) (param3 w) (flag w).

End Builders.

(** * Frame codec *)

Section Bytes.

Lemma byte_to_Z_range (b : byte) : 0 <= byte_to_Z b < 256.
Proof.
  unfold byte_to_Z. pose proof (Byte.to_N_bounded b). lia.
Qed.

Lemma byte_to_of_Z (z : Z) : byte_to_Z (byte_of_Z z) = z mod 256.
Proof.
  unfold byte_of_Z, byte_to_Z.
  assert (Hr : 0 <= z mod 256 < 256) by (apply Z.mod_pos_bound; lia).
  destruct (Byte.of_N (Z.to_N (z mod 256))) as [b|] eqn:E.
  - apply Byte.to_of_N in E. rewrite E. lia.
  - apply Byte.of_N_None_iff in E. lia.
Qed.

Lemma byte_of_to_Z (b : byte) : byte_of_Z (byte_to_Z b) = b.
Proof.
  unfold byte_of_Z. rewrite Z.mod_small by apply byte_to_Z_range.
  unfold byte_to_Z. rewrite N2Z.id, Byte.of_to_N. reflexivity.
Qed.

Lemma byte_to_of_Z_small (z : Z) : 0 <= z < 256 -> byte_to_Z (byte_of_Z z) = z.
Proof. intros H. rewrite byte_to_of_Z. apply Z.mod_small, H. Qed.

Lemma len_map {A B} (f : A -> B) (l : list A) : len (f <$> l) = len l.
Proof. unfold len. by rewrite length_fmap. Qed.

Lemma len_nonneg {A} (l : list A) : 0 <= len l.
Proof. unfold len. lia. Qed.

(** A value below [2^n] stays below [2^n] under XOR. *)
Lemma lxor_below (n a b : Z) :
  0 < n -> 0 <= a < 2 ^ n -> 0 <= b < 2 ^ n -> 0 <= Z.lxor a b < 2 ^ n.
Proof.
  intros Hn Ha Hb.
  assert (H0 : 0 <= Z.lxor a b) by (apply Z.lxor_nonneg; lia).
  split; [exact H0|].
  destruct (Z.eq_dec (Z.lxor a b) 0) as [->|Hne]; [lia|].
  apply Z.log2_lt_pow2; [lia|].
  pose proof (Z.log2_lxor a b ltac:(lia) ltac:(lia)) as Hl.
  assert (Z.log2 a < n).
  { destruct (Z.eq_dec a 0) as [->|]; [simpl; lia|]. apply Z.log2_lt_pow2; lia. }
  assert (Z.log2 b < n).
  { destruct (Z.eq_dec b 0) as [->|]; [simpl; lia|]. apply Z.log2_lt_pow2; lia. }
  lia.
Qed.

Lemma fold_left_fmap_ext {A B C} (f : C -> A -> C) (g : C -> B -> C) (h : A -> B) :
  (forall c a, f c a = g c (h a)) ->
  forall l c, fold_left f l c = fold_left g (h <$> l) c.
Proof.
  intros Hfg. induction l as [|a r IH]; intros c; [reflexivity|].
  cbn [fold_left fmap list_fmap]. rewrite Hfg. apply IH.
Qed.

Lemma bytes_of_in_range (zs : list Z) :
  Forall (fun z => 0 <= z < 256) zs -> bytes_of zs = Return (byte_of_Z <$> zs).
Proof.
  induction 1 as [|z r Hz _ IH]; [reflexivity|].
  simpl. rewrite IH.
  destruct (Z.leb_spec 0 z), (Z.ltb_spec z 256); try lia. reflexivity.
Qed.

End Bytes.

Section Checksums.
Import Core.

Lemma checksum_v1_fold (data : bytes) (acc : Z) :
  fold_left (fun chk b => Z.lxor chk (byte_to_Z b)) data acc
  = Z.lxor acc (Spec.fold_xor (byte_to_Z <$> data)).
Proof.
  revert acc. induction data as [|b r IH]; intros acc; simpl.
  - by rewrite Z.lxor_0_r.
  - rewrite IH. by rewrite Z.lxor_assoc.
Qed.

Lemma fold_xor_range (data : bytes) : 0 <= Spec.fold_xor (byte_to_Z <$> data) < 256.
Proof.
  induction data as [|b r IH]; simpl; [lia|].
  apply (lxor_below 8); [lia | apply byte_to_Z_range | exact IH].
Qed.

Lemma checksum_v1_spec (size code : Z) (data : bytes) :
  _calculate_checksum_v1 size code data
  = Z.lxor (Z.lxor size code) (Spec.fold_xor (byte_to_Z <$> data)).
Proof. apply checksum_v1_fold. Qed.

Lemma checksum_v1_range (size code : Z) (data : bytes) :
  0 <= size < 256 -> 0 <= code < 256 ->
  0 <= _calculate_checksum_v1 size code data < 256.
Proof.
  intros Hs Hc. rewrite checksum_v1_spec.
  apply (lxor_below 8); [lia | | apply fold_xor_range].
  apply (lxor_below 8); lia.
Qed.

Lemma land_pow2 (a n : Z) :
  0 <= n -> Z.land a (2 ^ n) = if Z.testbit a n then 2 ^ n else 0.
Proof.
  intros Hn. apply Z.bits_inj'. intros m Hm.
  rewrite Z.land_spec, Z.pow2_bits_eqb by lia.
  destruct (Z.eqb_spec n m) as [->|Hne].
  - destruct (Z.testbit a m); simpl.
    + rewrite Z.pow2_bits_true; [reflexivity | lia].
    + by rewrite Z.bits_0.
  - rewrite andb_false_r.
    destruct (Z.testbit a n).
    + rewrite Z.pow2_bits_false; [reflexivity | lia].
    + by rewrite Z.bits_0.
Qed.

Lemma crc_shift_spec (v : Z) : crc_shift v = Spec.crc8_bit v.
Proof.
  unfold crc_shift, Spec.crc8_bit.
  change 128 with (2 ^ 7). rewrite land_pow2 by lia.
  change 255 with (Z.ones 8). rewrite Z.land_ones by lia.
  rewrite Z.shiftl_mul_pow2 by lia. change (2 ^ 1) with 2.
  rewrite (Z.mul_comm v 2).
  destruct (Z.testbit v 7); reflexivity.
Qed.

Lemma crc_shift_range (v : Z) : 0 <= crc_shift v < 256.
Proof.
  rewrite crc_shift_spec. unfold Spec.crc8_bit.
  apply Z.mod_pos_bound. lia.
Qed.

Lemma crc_update_spec (crc : Z) (b : byte) :
  crc_update crc b = Nat.iter 8 Spec.crc8_bit (Z.lxor crc (byte_to_Z b)).
Proof.
  unfold crc_update. simpl. by rewrite !crc_shift_spec.
Qed.

Lemma crc_update_range (crc : Z) (b : byte) : 0 <= crc_update crc b < 256.
Proof. unfold crc_update. simpl. apply crc_shift_range. Qed.

Lemma crc_v2_fold (data : bytes) (acc : Z) :
  fold_left crc_update data acc
  = fold_left (fun crc b => Nat.iter 8 Spec.crc8_bit (Z.lxor crc b)) (byte_to_Z <$> data) acc.
Proof. apply fold_left_fmap_ext, crc_update_spec. Qed.

Lemma crc_v2_spec (data : bytes) :
  _calculate_crc_v2 data = Spec.crc8_dvb_s2 (byte_to_Z <$> data).
Proof. apply crc_v2_fold. Qed.

Lemma crc_v2_fold_range (data : bytes) (acc : Z) :
  0 <= acc < 256 -> 0 <= fold_left crc_update data acc < 256.
Proof.
  revert acc. induction data as [|b r IH]; intros acc Hacc; simpl; [exact Hacc|].
  apply IH, crc_update_range.
Qed.

Lemma crc_v2_range (data : bytes) : 0 <= _calculate_crc_v2 data < 256.
Proof. apply crc_v2_fold_range. lia. Qed.

End Checksums.

Section Encoders.
Import Core.

Lemma encode_v1_in_range (code : Z) (data : bytes) :
  0 <= code <= 255 -> len data <= 255 ->
  encode_v1 code data
  = Return (MSP_V1_HEADER ++ [byte_of_Z (len data); byte_of_Z code] ++ data
            ++ [byte_of_Z (_calculate_checksum_v1 (len data) code data)]).
Proof.
  intros Hc Hl. unfold encode_v1.
  pose proof (len_nonneg data) as H0.
  destruct (Z.gtb_spec (len data) 255) as [?|_]; [lia|].
  pose proof (checksum_v1_range (len data) code data ltac:(lia) ltac:(lia)) as Hk.
  rewrite (bytes_of_in_range [len data; code]) by (repeat constructor; lia).
  rewrite (bytes_of_in_range [_calculate_checksum_v1 (len data) code data])
    by (repeat constructor; lia).
  reflexivity.
Qed.

Lemma encode_v1_too_large (code : Z) (data : bytes) :
  255 < len data -> encode_v1 code data = Raise (MSPException V1PayloadTooLarge).
Proof.
  intros Hl. unfold encode_v1.
  destruct (Z.gtb_spec (len data) 255) as [_|?]; [reflexivity | lia].
Qed.

Lemma v1_packet_view (code : Z) (data : bytes) :
  0 <= code <= 255 -> len data <= 255 ->
  byte_to_Z <$> (MSP_V1_HEADER ++ [byte_of_Z (len data); byte_of_Z code] ++ data
                 ++ [byte_of_Z (_calculate_checksum_v1 (len data) code data)])
  = Spec.v1_frame code (byte_to_Z <$> data).
Proof.
  intros Hc Hl. pose proof (len_nonneg data) as H0.
  pose proof (checksum_v1_range (len data) code data ltac:(lia) ltac:(lia)) as Hk.
  unfold Spec.v1_frame. rewrite len_map.
  rewrite !fmap_app. cbn [fmap list_fmap MSP_V1_HEADER].
  rewrite !byte_to_of_Z_small by lia.
  rewrite checksum_v1_spec. reflexivity.
Qed.

Lemma pack_BHH_in_range (code size : Z) :
  0 <= code <= 65535 -> 0 <= size <= 65535 ->
  pack_BHH 0 code size
  = Return [byte_of_Z 0; byte_of_Z code; byte_of_Z (code / 256);
            byte_of_Z size; byte_of_Z (size / 256)].
Proof.
  intros Hc Hs. unfold pack_BHH, pack_B, pack_H, pack_field.
  destruct (Z.leb_spec 0 code), (Z.leb_spec code 65535),
           (Z.leb_spec 0 size), (Z.leb_spec size 65535); try lia.
  reflexivity.
Qed.

Lemma u16_le_view (v : Z) :
  0 <= v <= 65535 ->
  [byte_to_Z (byte_of_Z v); byte_to_Z (byte_of_Z (v / 256))] = Spec.u16_le v.
Proof.
  intros Hv. unfold Spec.u16_le. rewrite !byte_to_of_Z.
  f_equal. f_equal. apply Z.mod_small.
  split; [apply Z.div_pos; lia | apply Z.div_lt_upper_bound; lia].
Qed.

Lemma encode_v2_in_range (code : Z) (data : bytes) :
  0 <= code <= 65535 -> len data <= 65535 ->
  encode_v2 code data
  = Return (MSP_V2_HEADER ++ v2_covered code data
            ++ [byte_of_Z (_calculate_crc_v2 (v2_covered code data))]).
Proof.
  intros Hc Hl. unfold encode_v2.
  pose proof (len_nonneg data) as H0.
  destruct (Z.gtb_spec (len data) 65535) as [?|_]; [lia|].
  rewrite pack_BHH_in_range by lia.
  cbn [pack_cat]. fold (v2_covered code data).
  generalize (v2_covered code data) as covered. intros covered.
  pose proof (crc_v2_range covered) as Hk.
  rewrite (bytes_of_in_range [_calculate_crc_v2 covered]) by (repeat constructor; lia).
  cbn [pack_cat fmap list_fmap]. by rewrite <- app_assoc.
Qed.

Lemma encode_v2_too_large (code : Z) (data : bytes) :
  65535 < len data -> encode_v2 code data = Raise (MSPException V2PayloadTooLarge).
Proof.
  intros Hl. unfold encode_v2.
  destruct (Z.gtb_spec (len data) 65535) as [_|?]; [reflexivity | lia].
Qed.

Lemma v2_covered_view (code : Z) (data : bytes) :
  0 <= code <= 65535 -> len data <= 65535 ->
  byte_to_Z <$> v2_covered code data
  = [0] ++ Spec.u16_le code ++ Spec.u16_le (len data) ++ (byte_to_Z <$> data).
Proof.
  intros Hc Hl. pose proof (len_nonneg data) as H0.
  unfold v2_covered. rewrite fmap_app. cbn [fmap list_fmap].
  pose proof (u16_le_view code ltac:(lia)) as E1.
  pose proof (u16_le_view (len data) ltac:(lia)) as E2.
  unfold Spec.u16_le in *. injection E1 as -> ->. injection E2 as -> ->.
  rewrite byte_to_of_Z_small by lia. reflexivity.
Qed.

Lemma v2_packet_view (code : Z) (data : bytes) :
  0 <= code <= 65535 -> len data <= 65535 ->
  byte_to_Z <$> (MSP_V2_HEADER ++ v2_covered code data
                 ++ [byte_of_Z (_calculate_crc_v2 (v2_covered code data))])
  = Spec.v2_frame code (byte_to_Z <$> data).
Proof.
  intros Hc Hl. unfold Spec.v2_frame. rewrite len_map.
  rewrite <- (v2_covered_view code data Hc Hl).
  rewrite <- crc_v2_spec.
  pose proof (crc_v2_range (v2_covered code data)) as Hk.
  rewrite !fmap_app. cbn [fmap list_fmap MSP_V2_HEADER].
  rewrite byte_to_of_Z_small by lia. reflexivity.
Qed.

(** Writing a packet on an open, healthy port appends it to the log. *)
Lemma write_packet_ok (c : ConnectionManager) (s : Serial) (packet : bytes) :
  tx_fault s = false ->
  on_ser (write_packet packet) c s
  = (Return tt, set_ser c (mkSerial (rx s) (tx s ++ [packet]) false)).
Proof.
  intros Hf. unfold on_ser, write_packet, try_except, ser_write.
  rewrite Hf. reflexivity.
Qed.

(** C5. For a code in 0..255 and a payload of at most 255 bytes,
    [send_msp_v1] writes exactly one packet, whose bytes are '$','M','<',
    the size, the code, the payload and the checksum
    size XOR code XOR (XOR-fold of the payload); with a longer payload it
    raises the payload-too-large error and leaves the connection, and so
    the log of written packets, as it was. *)
Theorem send_msp_v1_frame (c : ConnectionManager) (s : Serial) (code : Z) (data : bytes) :
  ser c = Some s ->
  (0 <= code <= 255 -> len data <= 255 -> tx_fault s = false ->
   exists packet,
     send_msp_v1 code data c
     = (Return tt, set_ser c (mkSerial (rx s) (tx s ++ [packet]) false))
     /\ byte_to_Z <$> packet = Spec.v1_frame code (byte_to_Z <$> data))
  /\ (255 < len data ->
      send_msp_v1 code data c = (Raise (MSPException V1PayloadTooLarge), c)).
Proof.
  intros Hs. split.
  - intros Hc Hl Hf. eexists. split.
    + unfold send_msp_v1. rewrite Hs, encode_v1_in_range by assumption.
      apply write_packet_ok, Hf.
    + apply v1_packet_view; assumption.
  - intros Hl. unfold send_msp_v1. rewrite Hs, encode_v1_too_large by assumption.
    reflexivity.
Qed.

Lemma send_msp_v1_frame_witness :
  (exists packet,
     send_msp_v1 118 ["003"%byte] Fixtures.quiet_conn
     = (Return tt, set_ser Fixtures.quiet_conn (mkSerial [] [packet] false))
     /\ byte_to_Z <$> packet = [36; 77; 60; 1; 118; 3; 116])
  /\ send_msp_v1 118 (replicate 256 "000"%byte) Fixtures.quiet_conn
     = (Raise (MSPException V1PayloadTooLarge), Fixtures.quiet_conn).
Proof.
  pose proof (send_msp_v1_frame Fixtures.quiet_conn Fixtures.quiet_port 118
                ["003"%byte] eq_refl) as [H1 _].
  pose proof (send_msp_v1_frame Fixtures.quiet_conn Fixtures.quiet_port 118
                (replicate 256 "000"%byte) eq_refl) as [_ H2].
  split.
  - apply H1; [lia | by vm_compute | reflexivity].
  - apply H2. by vm_compute.
Defined.

(** C4. For a code in 0..65535 and a payload of at most 65535 bytes,
    [send_msp_v2] writes exactly one packet, whose bytes are '$','X','<',
    flag 0, the code and the size as 16-bit little-endian values, the
    payload, and the CRC-8/DVB-S2 of everything after the header; with a
    longer payload it raises the payload-too-large error. *)
Theorem send_msp_v2_frame (c : ConnectionManager) (s : Serial) (code : Z) (data : bytes) :
  ser c = Some s ->
  (0 <= code <= 65535 -> len data <= 65535 -> tx_fault s = false ->
   exists packet,
     send_msp_v2 code data c
     = (Return tt, set_ser c (mkSerial (rx s) (tx s ++ [packet]) false))
     /\ byte_to_Z <$> packet = Spec.v2_frame code (byte_to_Z <$> data))
  /\ (65535 < len data ->
      send_msp_v2 code data c = (Raise (MSPException V2PayloadTooLarge), c)).
Proof.
  intros Hs. split.
  - intros Hc Hl Hf. eexists. split.
    + unfold send_msp_v2. rewrite Hs, encode_v2_in_range by assumption.
      apply write_packet_ok, Hf.
    + apply v2_packet_view; assumption.
  - intros Hl. unfold send_msp_v2. rewrite Hs, encode_v2_too_large by assumption.
    reflexivity.
Qed.

Lemma send_msp_v2_frame_witness :
  (exists packet,
     send_msp_v2 118 ["003"%byte] Fixtures.quiet_conn
     = (Return tt, set_ser Fixtures.quiet_conn (mkSerial [] [packet] false))
     /\ byte_to_Z <$> packet = [36; 88; 60; 0; 118; 0; 1; 0; 3; 225])
  /\ send_msp_v2 118 (replicate 65536 "000"%byte) Fixtures.quiet_conn
     = (Raise (MSPException V2PayloadTooLarge), Fixtures.quiet_conn).
Proof.
  pose proof (send_msp_v2_frame Fixtures.quiet_conn Fixtures.quiet_port 118
                ["003"%byte] eq_refl) as [H1 _].
  pose proof (send_msp_v2_frame Fixtures.quiet_conn Fixtures.quiet_port 118
                (replicate 65536 "000"%byte) eq_refl) as [_ H2].
  split.
  - apply H1; [lia | by vm_compute | reflexivity].
  - apply H2. by vm_compute.
Defined.

End Encoders.

(** * Receiving *)

Section Receiving.
Import Core.

Lemma bind_return {S A B} (m : M S A) (k : A -> M S B) (s s' : S) (a : A) :
  m s = (Return a, s') -> bind m k s = k a s'.
Proof. intros H. unfold bind. by rewrite H. Qed.

Lemma bind_raise {S A B} (m : M S A) (k : A -> M S B) (s s' : S) (e : exn) :
  m s = (Raise e, s') -> bind m k s = (Raise e, s').
Proof. intros H. unfold bind. by rewrite H. Qed.

Lemma read_events_bytes (bs : bytes) (rest : list rx_event) :
  read_events (length bs) ((RxByte <$> bs) ++ rest) = (Return bs, rest).
Proof.
  induction bs as [|b r IH]; [reflexivity|].
  cbn [length fmap list_fmap app read_events].
  change (list_fmap byte rx_event RxByte r) with (RxByte <$> r).
  by rewrite IH.
Qed.

Lemma ser_read_bytes (s : Serial) (bs : bytes) (rest : list rx_event) (n : Z) :
  rx s = (RxByte <$> bs) ++ rest -> n = len bs ->
  ser_read n s = (Return bs, mkSerial rest (tx s) (tx_fault s)).
Proof.
  intros Hrx ->. unfold ser_read, len. rewrite Nat2Z.id, Hrx, read_events_bytes.
  reflexivity.
Qed.

Lemma byte_of_Z_low (lo hi : Z) : byte_of_Z (lo + 256 * hi) = byte_of_Z lo.
Proof.
  unfold byte_of_Z. rewrite (Z.mul_comm 256 hi), Z_mod_plus_full. reflexivity.
Qed.

Lemma le_bytes_value_2 (b0 b1 : byte) : le_bytes 2 (le_value [b0; b1]) = [b0; b1].
Proof.
  cbn [le_bytes le_value].
  pose proof (byte_to_Z_range b0) as H0. pose proof (byte_to_Z_range b1) as H1.
  rewrite byte_of_Z_low, byte_of_to_Z.
  replace ((byte_to_Z b0 + 256 * (byte_to_Z b1 + 256 * 0)) / 256) with (byte_to_Z b1).
  - by rewrite byte_of_to_Z.
  - rewrite Z.mul_0_r, Z.add_0_r, (Z.mul_comm 256), Z.div_add by lia.
    rewrite Z.div_small by lia. reflexivity.
Qed.

Lemma le_value_2_range (b0 b1 : byte) : 0 <= le_value [b0; b1] <= 65535.
Proof.
  cbn [le_value].
  pose proof (byte_to_Z_range b0). pose proof (byte_to_Z_range b1). lia.
Qed.

(** Re-packing the header fields of a received V2 frame gives back the
    bytes that were received. *)
Lemma repack_v2_header (flag c0 c1 s0 s1 : byte) (data : bytes) :
  pack_cat (bytes_of [byte_to_Z flag])
    (pack_cat (pack_HH (unpack_unsigned [c0; c1]) (unpack_unsigned [s0; s1])) (Return data))
  = Return ([flag; c0; c1; s0; s1] ++ data).
Proof.
  rewrite (bytes_of_in_range [byte_to_Z flag])
    by (repeat constructor; apply byte_to_Z_range).
  unfold pack_HH, pack_H, pack_field, unpack_unsigned.
  pose proof (le_value_2_range c0 c1). pose proof (le_value_2_range s0 s1).
  destruct (Z.leb_spec 0 (le_value [c0; c1])), (Z.leb_spec (le_value [c0; c1]) 65535),
           (Z.leb_spec 0 (le_value [s0; s1])), (Z.leb_spec (le_value [s0; s1]) 65535);
    try lia.
  cbn [andb]. rewrite !le_bytes_value_2.
  cbn [pack_cat fmap list_fmap app]. by rewrite byte_of_to_Z.
Qed.

(** What [_read_v1_response] does with a complete frame body. *)
Lemma read_v1_complete (s : Serial) (size code chk : byte) (data : bytes)
    (rest : list rx_event) :
  rx s = (RxByte <$> [size; code] ++ data ++ [chk]) ++ rest ->
  len data = byte_to_Z size ->
  _read_v1_response s
  = (Return (if byte_to_Z chk
                =? _calculate_checksum_v1 (byte_to_Z size) (byte_to_Z code) data
             then (Some (byte_to_Z code), Some data) else (None, None)),
     mkSerial rest (tx s) (tx_fault s)).
Proof.
  intros Hrx Hlen. unfold _read_v1_response, try_except.
  erewrite bind_return
    by (apply (ser_read_bytes s [size] ((RxByte <$> [code] ++ data ++ [chk]) ++ rest));
        [rewrite Hrx; reflexivity | reflexivity]).
  cbn [lift ord bind].
  erewrite bind_return
    by (apply (ser_read_bytes _ [code] ((RxByte <$> data ++ [chk]) ++ rest));
        [reflexivity | reflexivity]).
  cbn [lift ord bind].
  erewrite bind_return
    by (apply (ser_read_bytes _ data ((RxByte <$> [chk]) ++ rest));
        [cbn [rx]; by rewrite fmap_app, <- app_assoc | by rewrite Hlen]).
  erewrite bind_return
    by (apply (ser_read_bytes _ [chk] rest); [reflexivity | reflexivity]).
  cbn [lift ord bind ret tx tx_fault].
  generalize (_calculate_checksum_v1 (byte_to_Z size) (byte_to_Z code) data) as k.
  intros k. destruct (byte_to_Z chk =? k); reflexivity.
Qed.

(** What [_read_v2_response] does with a complete frame body. *)
Lemma read_v2_complete (s : Serial) (flag c0 c1 s0 s1 crc : byte) (data : bytes)
    (rest : list rx_event) :
  rx s = (RxByte <$> [flag; c0; c1; s0; s1] ++ data ++ [crc]) ++ rest ->
  len data = le_value [s0; s1] ->
  _read_v2_response s
  = (Return (if byte_to_Z crc =? _calculate_crc_v2 ([flag; c0; c1; s0; s1] ++ data)
             then (Some (le_value [c0; c1]), Some data) else (None, None)),
     mkSerial rest (tx s) (tx_fault s)).
Proof.
  intros Hrx Hlen. unfold _read_v2_response, try_except.
  erewrite bind_return
    by (apply (ser_read_bytes s [flag] ((RxByte <$> [c0; c1; s0; s1] ++ data ++ [crc]) ++ rest));
        [rewrite Hrx; reflexivity | reflexivity]).
  cbn [lift ord bind].
  erewrite bind_return
    by (apply (ser_read_bytes _ [c0; c1; s0; s1] ((RxByte <$> data ++ [crc]) ++ rest));
        [reflexivity | reflexivity]).
  cbn [lift unpack_HH bind].
  erewrite bind_return
    by (apply (ser_read_bytes _ data ((RxByte <$> [crc]) ++ rest));
        [cbn [rx]; by rewrite fmap_app, <- app_assoc | by rewrite Hlen]).
  erewrite bind_return
    by (apply (ser_read_bytes _ [crc] rest); [reflexivity | reflexivity]).
  cbn [lift ord bind]. rewrite repack_v2_header.
  cbn [ret tx tx_fault].
  generalize (_calculate_crc_v2 ([flag; c0; c1; s0; s1] ++ data)) as k.
  intros k. unfold unpack_unsigned. destruct (byte_to_Z crc =? k); reflexivity.
Qed.

Lemma scan_header_quiet (polls : nat) (s : Serial) :
  Forall quiet (take polls (rx s)) ->
  scan_header polls s
  = (Return (None, None), mkSerial (drop polls (rx s)) (tx s) (tx_fault s)).
Proof.
  revert s. induction polls as [|k IH]; intros s Hq.
  - destruct s; reflexivity.
  - cbn [scan_header]. unfold bind, ser_read. change (Z.to_nat 1) with 1%nat.
    destruct s as [evs out fault]. cbn [rx tx tx_fault] in *.
    destruct evs as [|ev evs]; cbn [read_events].
    + rewrite IH by (cbn [rx]; rewrite take_nil; constructor).
      cbn [rx tx tx_fault]. by rewrite drop_nil.
    + cbn [take] in Hq. apply Forall_cons in Hq as [Hev Hq].
      destruct ev as [b| |]; cbn [quiet] in Hev; [| |contradiction].
      * rewrite bool_decide_eq_false_2 by congruence.
        rewrite IH by exact Hq. reflexivity.
      * rewrite IH by exact Hq. reflexivity.
Qed.

(** The header loop drops bytes that are not ['$']. *)
Lemma scan_header_noise (noise : bytes) (polls : nat) (s : Serial) (rest : list rx_event) :
  Forall (fun b => b <> "$"%byte) noise ->
  rx s = (RxByte <$> noise) ++ rest ->
  scan_header (length noise + polls) s
  = scan_header polls (mkSerial rest (tx s) (tx_fault s)).
Proof.
  revert s. induction noise as [|b r IH]; intros s Hn Hrx.
  - destruct s; cbn in *; by subst.
  - apply Forall_cons in Hn as [Hb Hn].
    cbn [length Nat.add scan_header]. unfold bind at 1, ser_read.
    change (Z.to_nat 1) with 1%nat. rewrite Hrx. cbn [fmap list_fmap app read_events].
    rewrite bool_decide_eq_false_2 by congruence.
    rewrite (IH (mkSerial ((RxByte <$> r) ++ rest) (tx s) (tx_fault s)) Hn eq_refl).
    reflexivity.
Qed.

(** A header found with the deadline not yet passed selects the decoder. *)
Lemma scan_header_found (polls : nat) (s : Serial) (h1 h2 : byte) (rest : list rx_event) :
  rx s = (RxByte <$> ["$"%byte; h1; h2]) ++ rest ->
  scan_header (S polls) s
  = (let header := ["$"%byte; h1; h2] in
     if bool_decide (header = MSP_V1_RESPONSE) then _read_v1_response
     else if bool_decide (header = MSP_V2_RESPONSE) then _read_v2_response
     else if bool_decide (header = MSP_ERROR) then ret (None, None)
     else scan_header polls) (mkSerial rest (tx s) (tx_fault s)).
Proof.
  intros Hrx. cbn [scan_header]. unfold bind at 1, ser_read at 1.
  change (Z.to_nat 1) with 1%nat. rewrite Hrx. cbn [fmap list_fmap app read_events].
  rewrite bool_decide_eq_true_2 by reflexivity.
  unfold bind at 1, ser_read at 1. change (Z.to_nat 2) with 2%nat.
  cbn [rx read_events tx tx_fault]. reflexivity.
Qed.

Lemma read_response_scan (c : ConnectionManager) (s s' : Serial) (t : option nat)
    (r : response) :
  ser c = Some s ->
  scan_header (deadline t c) s = (Return r, s') ->
  read_response t c = (Return r, set_ser c s').
Proof.
  intros Hs Hscan. unfold read_response, on_ser, try_except.
  rewrite Hs, Hscan. reflexivity.
Qed.

(** A frame after [noise], met before the deadline. *)
Lemma scan_header_frame (c : ConnectionManager) (s : Serial) (t : option nat)
    (noise : bytes) (h1 h2 : byte) (rest : list rx_event) :
  Forall (fun b => b <> "$"%byte) noise ->
  (length noise < deadline t c)%nat ->
  rx s = (RxByte <$> noise ++ ["$"%byte; h1; h2]) ++ rest ->
  exists polls,
    scan_header (deadline t c) s
    = scan_header (S polls) (mkSerial ((RxByte <$> ["$"%byte; h1; h2]) ++ rest)
                               (tx s) (tx_fault s)).
Proof.
  intros Hn Hd Hrx.
  exists (deadline t c - length noise - 1)%nat.
  replace (deadline t c) with (length noise + S (deadline t c - length noise - 1))%nat
    at 1 by lia.
  apply scan_header_noise; [exact Hn|].
  by rewrite Hrx, fmap_app, <- app_assoc.
Qed.

(** The result of [read_response] when a frame with the given header and
    body comes after [noise] and before the deadline. *)
Lemma read_response_frame (c : ConnectionManager) (s : Serial) (t : option nat)
    (noise : bytes) (h1 h2 : byte) (body : bytes) (rest : list rx_event) :
  ser c = Some s ->
  Forall (fun b => b <> "$"%byte) noise ->
  (length noise < deadline t c)%nat ->
  rx s = (RxByte <$> noise ++ ["$"%byte; h1; h2] ++ body) ++ rest ->
  exists polls,
    scan_header (deadline t c) s
    = scan_header (S polls)
        (mkSerial ((RxByte <$> ["$"%byte; h1; h2]) ++ (RxByte <$> body) ++ rest)
           (tx s) (tx_fault s)).
Proof.
  intros Hs Hn Hd Hrx.
  apply (scan_header_frame c s t noise h1 h2 ((RxByte <$> body) ++ rest) Hn Hd).
  rewrite Hrx, !fmap_app, <- !app_assoc. reflexivity.
Qed.

(** One pass of the header loop over a gap. *)
Lemma scan_header_gap (g : gap) (polls : nat) (s : Serial) (rest : list rx_event) :
  gap_ok g ->
  rx s = gap_events g ++ rest ->
  scan_header (S polls) s = scan_header polls (mkSerial rest (tx s) (tx_fault s)).
Proof.
  intros Hok Hrx. cbn [scan_header]. unfold bind at 1, ser_read at 1.
  change (Z.to_nat 1) with 1%nat. rewrite Hrx.
  destruct g as [|b|h1 h2|[h|]]; cbn [gap_events app read_events].
  - reflexivity.
  - cbn [gap_ok] in Hok. rewrite bool_decide_eq_false_2 by congruence. reflexivity.
  - destruct Hok as (H1 & H2 & H3).
    rewrite bool_decide_eq_true_2 by reflexivity.
    unfold bind at 1, ser_read at 1. change (Z.to_nat 2) with 2%nat.
    cbn [rx read_events tx tx_fault].
    rewrite !bool_decide_eq_false_2 by assumption. reflexivity.
  - rewrite bool_decide_eq_true_2 by reflexivity.
    unfold bind at 1, ser_read at 1. change (Z.to_nat 2) with 2%nat.
    cbn [rx read_events tx tx_fault].
    rewrite !bool_decide_eq_false_2 by discriminate. reflexivity.
  - rewrite bool_decide_eq_true_2 by reflexivity.
    unfold bind at 1, ser_read at 1. change (Z.to_nat 2) with 2%nat.
    cbn [rx read_events tx tx_fault].
    rewrite !bool_decide_eq_false_2 by discriminate. reflexivity.
Qed.

(** The header loop spends one pass on each gap and goes on. *)
Lemma scan_header_gaps (gaps : list gap) (polls : nat) (s : Serial)
    (rest : list rx_event) :
  Forall gap_ok gaps ->
  rx s = gaps_events gaps ++ rest ->
  scan_header (length gaps + polls) s
  = scan_header polls (mkSerial rest (tx s) (tx_fault s)).
Proof.
  revert s. induction gaps as [|g gaps IH]; intros s Hok Hrx.
  - destruct s; cbn in *; by subst.
  - apply Forall_cons in Hok as [Hg Hok].
    cbn [length Nat.add].
    rewrite (scan_header_gap g _ s (gaps_events gaps ++ rest) Hg)
      by (rewrite Hrx; unfold gaps_events; cbn [fmap list_fmap concat];
          by rewrite <- app_assoc).
    rewrite (IH (mkSerial (gaps_events gaps ++ rest) (tx s) (tx_fault s)) Hok eq_refl).
    reflexivity.
Qed.

(** With nothing left to read every remaining pass times out. *)
Lemma scan_header_dry (polls : nat) (s : Serial) :
  rx s = [] -> scan_header polls s = (Return (None, None), s).
Proof.
  intros Hrx. rewrite scan_header_quiet by (rewrite Hrx, take_nil; constructor).
  rewrite Hrx, drop_nil. destruct s; cbn in *; by subst.
Qed.

(** The header loop at a frame start that comes after gaps and before
    the deadline. *)
Lemma scan_header_after_gaps (c : ConnectionManager) (s : Serial) (t : option nat)
    (gaps : list gap) (evs : list rx_event) :
  Forall gap_ok gaps ->
  (length gaps < deadline t c)%nat ->
  rx s = gaps_events gaps ++ evs ->
  exists polls,
    scan_header (deadline t c) s
    = scan_header (S polls) (mkSerial evs (tx s) (tx_fault s)).
Proof.
  intros Hok Hd Hrx. exists (deadline t c - length gaps - 1)%nat.
  replace (deadline t c) with (length gaps + S (deadline t c - length gaps - 1))%nat
    at 1 by lia.
  by apply scan_header_gaps.
Qed.



End Receiving.

(** * The link under a mission operation *)

Section Link.
Import Core Planning.

Create HintDb rx_only discriminated.

Lemma rx_only_ret {A} (a : A) : rx_only (ret a).
Proof. intros s. by split. Qed.

Lemma rx_only_raise {A} (e : exn) : rx_only (@raise Serial A e).
Proof. intros s. by split. Qed.

Lemma rx_only_lift {A} (o : outcome A) : rx_only (lift o).
Proof. intros s. by split. Qed.

Lemma rx_only_bind {A B} (m : M Serial A) (k : A -> M Serial B) :
  rx_only m -> (forall a, rx_only (k a)) -> rx_only (bind m k).
Proof.
  intros Hm Hk s. unfold bind. specialize (Hm s).
  destruct (m s) as [[a|e] s1]; cbn [snd] in *; [|exact Hm].
  destruct (Hk a s1) as [H1 H2]. destruct Hm as [H3 H4]. split; congruence.
Qed.

Lemma rx_only_try {A} (m h : M Serial A) (handles : exn -> bool) :
  rx_only m -> rx_only h -> rx_only (try_except m handles h).
Proof.
  intros Hm Hh s. unfold try_except. specialize (Hm s).
  destruct (m s) as [[a|e] s1]; cbn [snd] in *; [exact Hm|].
  destruct (handles e); [|exact Hm].
  destruct (Hh s1) as [H1 H2]. destruct Hm as [H3 H4]. split; congruence.
Qed.

Lemma rx_only_ser_read (n : Z) : rx_only (ser_read n).
Proof.
  intros s. unfold ser_read. destruct (read_events (Z.to_nat n) (rx s)). by split.
Qed.

Lemma rx_only_if {A} (b : bool) (m1 m2 : M Serial A) :
  rx_only m1 -> rx_only m2 -> rx_only (if b then m1 else m2).
Proof. by destruct b. Qed.

Lemma rx_only_pair {A B C} (p : A * B) (k : A -> B -> M Serial C) :
  (forall a b, rx_only (k a b)) -> rx_only (let '(a, b) := p in k a b).
Proof. destruct p. auto. Qed.

#[local] Hint Resolve rx_only_ret rx_only_raise rx_only_lift rx_only_ser_read : rx_only.
#[local] Hint Extern 2 (rx_only (bind _ _)) => apply rx_only_bind; [|intros ?] : rx_only.
#[local] Hint Extern 2 (rx_only (try_except _ _ _)) => apply rx_only_try : rx_only.
#[local] Hint Extern 2 (rx_only (if _ then _ else _)) => apply rx_only_if : rx_only.
#[local] Hint Extern 2 (rx_only (let '(_, _) := _ in _)) => apply rx_only_pair; intros ? ? : rx_only.

Lemma rx_only_read_v1 : rx_only _read_v1_response.
Proof. unfold _read_v1_response. auto 20 with rx_only. Qed.

Lemma rx_only_read_v2 : rx_only _read_v2_response.
Proof. unfold _read_v2_response. auto 20 with rx_only. Qed.

Lemma rx_only_scan_header (polls : nat) : rx_only (scan_header polls).
Proof.
  induction polls as [|k IH]; cbn [scan_header]; [auto with rx_only|].
  apply rx_only_bind; [auto with rx_only|]. intros byte.
  destruct byte as [|b bs]; [exact IH|].
  apply rx_only_if; [|exact IH].
  apply rx_only_bind; [auto with rx_only|]. intros rest.
  pose proof rx_only_read_v1. pose proof rx_only_read_v2.
  auto 10 with rx_only.
Qed.

Lemma extends_refl (c : ConnectionManager) : extends c [] c.
Proof. unfold extends. by rewrite app_nil_r. Qed.

Lemma extends_trans (c1 c2 c3 : ConnectionManager) (l1 l2 : list bytes) :
  extends c1 l1 c2 -> extends c2 l2 c3 -> extends c1 (l1 ++ l2) c3.
Proof.
  intros (H1 & H2 & H3) (H4 & H5 & H6). unfold extends.
  rewrite H4, H1, H5, H2, H6, H3, app_assoc. done.
Qed.

Lemma set_ser_same (c : ConnectionManager) (s : Serial) : ser c = Some s -> set_ser c s = c.
Proof. destruct c. cbn. by intros ->. Qed.

Lemma read_response_extends (t : option nat) (c c' : ConnectionManager)
    (o : outcome response) :
  read_response t c = (o, c') -> extends c [] c'.
Proof.
  unfold read_response. destruct (ser c) as [s|] eqn:Hs.
  - unfold on_ser.
    pose proof (rx_only_try (scan_header (deadline t c)) (raise (MSPException ReadFailed))
                  is_serial_exception (rx_only_scan_header _) (rx_only_raise _) s) as [Ht Hf].
    destruct (try_except _ _ _ s) as [o' s']. cbn [snd] in *.
    intros [= <- <-]. unfold extends, healthy, sent. cbn [set_ser ser msp_v2_supported].
    rewrite Hs, Ht, Hf, app_nil_r. done.
  - intros [= <- <-]. apply extends_refl.
Qed.

(** [send_msp] either writes the request packet on a healthy link or
    raises and changes nothing. *)
Lemma send_msp_cases (code : Z) (data : bytes) (c : ConnectionManager) :
  (exists s p,
     ser c = Some s /\ tx_fault s = false
     /\ request (msp_v2_supported c) code data = Return p
     /\ send_msp code data false c
        = (Return tt, set_ser c (mkSerial (rx s) (tx s ++ [p]) false)))
  \/ (exists e, send_msp code data false c = (Raise e, c)).
Proof.
  unfold send_msp, request.
  destruct (msp_v2_supported c && negb false && (len data <=? 65535));
    [unfold send_msp_v2; destruct (encode_v2 code data) as [p|e]
    |unfold send_msp_v1; destruct (encode_v1 code data) as [p|e]];
    destruct (ser c) as [s|] eqn:Hs; eauto;
    unfold on_ser, write_packet, try_except, ser_write;
    destruct (tx_fault s) eqn:Hf; cbn [is_serial_exception raise];
    try (right; eexists; by rewrite (set_ser_same c s Hs));
    left; exists s, p; by rewrite ?Hf.
Qed.

Lemma send_msp_ok (code : Z) (data : bytes) (c c' : ConnectionManager) :
  send_msp code data false c = (Return tt, c') ->
  healthy c = true
  /\ extends c [request_packet (msp_v2_supported c) code data] c'.
Proof.
  intros Hsend.
  destruct (send_msp_cases code data c) as [(s & p & Hs & Hf & Hp & E)|[e E]];
    rewrite E in Hsend; [|discriminate].
  injection Hsend as <-. unfold extends, healthy, sent, request_packet.
  rewrite Hp, Hs, Hf. done.
Qed.

Lemma send_msp_raise (code : Z) (data : bytes) (c c' : ConnectionManager) (e : exn) :
  send_msp code data false c = (Raise e, c') -> c' = c.
Proof.
  intros Hsend.
  destruct (send_msp_cases code data c) as [(s & p & Hs & Hf & Hp & E)|[e' E]];
    rewrite E in Hsend; [discriminate|]. by injection Hsend.
Qed.

Lemma send_msp_healthy (code : Z) (data p : bytes) (c : ConnectionManager) :
  healthy c = true ->
  request (msp_v2_supported c) code data = Return p ->
  exists c', send_msp code data false c = (Return tt, c').
Proof.
  intros Hh Hp.
  destruct (send_msp_cases code data c) as [(s & p' & Hs & Hf & _ & E)|[e E]]; [eauto|].
  exfalso. revert E Hh. unfold send_msp, healthy. fold (request (msp_v2_supported c) code data).
  unfold request in Hp.
  destruct (msp_v2_supported c && negb false && (len data <=? 65535));
    [unfold send_msp_v2|unfold send_msp_v1]; rewrite Hp;
    destruct (ser c) as [s|]; try discriminate;
    unfold on_ser, write_packet, try_except, ser_write;
    destruct (tx_fault s); discriminate.
Qed.

Lemma request_total (v2 : bool) (code : Z) (data : bytes) :
  0 <= code <= 255 -> len data <= 255 -> exists p, request v2 code data = Return p.
Proof.
  intros Hc Hl. unfold request.
  destruct (v2 && negb false && (len data <=? 65535)).
  - rewrite encode_v2_in_range by lia. eauto.
  - rewrite encode_v1_in_range by lia. eauto.
Qed.

Lemma pack_B_slot (i : Z) : 0 <= i < MAX_WAYPOINTS -> pack_B i = Return (le_bytes 1 i).
Proof.
  unfold MAX_WAYPOINTS, pack_B, pack_field. intros Hi.
  destruct (Z.leb_spec 0 i), (Z.leb_spec i 255); try lia. reflexivity.
Qed.

Lemma slot_in_range (i : Z) :
  (i <? 0) || (i >=? MAX_WAYPOINTS) = false <-> 0 <= i < MAX_WAYPOINTS.
Proof.
  unfold MAX_WAYPOINTS. rewrite orb_false_iff, Z.ltb_ge, Z.geb_leb, Z.leb_gt. lia.
Qed.

(** A read of slot [i] on a healthy link writes the request for slot [i]
    and nothing else. *)
Lemma read_waypoint_extends (i : Z) (c c' : ConnectionManager) (r : option Waypoint) :
  read_waypoint i c = (r, c') ->
  0 <= i < MAX_WAYPOINTS -> healthy c = true ->
  extends c [get_wp_packet (msp_v2_supported c) i] c'.
Proof.
  intros Hread Hi Hh. unfold read_waypoint in Hread.
  rewrite (proj2 (slot_in_range i) Hi) in Hread.
  unfold run_or, bind, lift in Hread. rewrite (pack_B_slot i Hi) in Hread.
  destruct (request_total (msp_v2_supported c) MSPCommands.MSP_WP (le_bytes 1 i))
    as [p Hp]; [unfold MSPCommands.MSP_WP; lia | unfold len; cbn [le_bytes length]; lia |].
  destruct (send_msp_healthy _ _ _ c Hh Hp) as [c1 Hsend]. rewrite Hsend in Hread.
  apply send_msp_ok in Hsend as [_ Hext1].
  destruct (read_response None c1) as [[resp|e] c2] eqn:Hresp.
  - apply read_response_extends in Hresp.
    assert (c' = c2) as ->
      by (destruct (decode_waypoint i resp); by injection Hread).
    rewrite <- (app_nil_r [_]). exact (extends_trans _ _ _ _ _ Hext1 Hresp).
  - apply read_response_extends in Hresp. injection Hread as _ <-.
    rewrite <- (app_nil_r [_]). exact (extends_trans _ _ _ _ _ Hext1 Hresp).
Qed.

(** Whatever a read of a slot does, the link stays the same link. *)
Lemma read_waypoint_link (i : Z) (c c' : ConnectionManager) (r : option Waypoint) :
  read_waypoint i c = (r, c') -> exists l, extends c l c'.
Proof.
  unfold read_waypoint.
  destruct ((i <? 0) || (i >=? MAX_WAYPOINTS)).
  { intros [= _ <-]. eexists. apply extends_refl. }
  unfold run_or, bind, lift.
  destruct (pack_B i) as [data|e].
  2: { intros [= _ <-]. eexists. apply extends_refl. }
  destruct (send_msp MSPCommands.MSP_WP data false c) as [[[]|e] c1] eqn:Hsend.
  2: { apply send_msp_raise in Hsend as ->. intros [= _ <-]. eexists. apply extends_refl. }
  apply send_msp_ok in Hsend as [_ Hext1].
  destruct (read_response None c1) as [[resp|e] c2] eqn:Hresp;
    apply read_response_extends in Hresp; intros Hread;
    assert (c' = c2) as ->
      by (try destruct (decode_waypoint i resp); by injection Hread);
    eexists; exact (extends_trans _ _ _ _ _ Hext1 Hresp).
Qed.

(** A successful write of slot [i] wrote the packet for slot [i] and,
    with verification, the read-back request for slot [i]; nothing else. *)
Lemma write_waypoint_ok (i : Z) (w : Waypoint) (validate : bool)
    (c c' : ConnectionManager) :
  write_waypoint i w validate c = (true, c') ->
  0 <= i < MAX_WAYPOINTS /\ healthy c = true
  /\ extends c (set_wp_packet (msp_v2_supported c) i w
                :: if validate then [get_wp_packet (msp_v2_supported c) i] else []) c'.
Proof.
  unfold write_waypoint.
  destruct ((i <? 0) || (i >=? MAX_WAYPOINTS)) eqn:Hi; [discriminate|].
  apply slot_in_range in Hi.
  destruct (validate && negb (validate_coordinates (lat w) (lon w) (alt w)));
    [discriminate|].
  unfold run_or, bind, lift, ret, set_wp_packet.
  destruct (pack_waypoint i w) as [data|e]; [|discriminate].
  destruct (send_msp MSPCommands.MSP_SET_WP data false c) as [[[]|e] c1] eqn:Hsend;
    [|discriminate].
  apply send_msp_ok in Hsend as [Hh Hext1]. cbn [negb].
  destruct validate.
  - destruct (read_waypoint i c1) as [v c2] eqn:Hread. intros Hres.
    assert (c' = c2) as ->.
    { destruct v as [v|]; [destruct (verification_failed v w)|]; by injection Hres. }
    destruct Hext1 as (Hh1 & Hv1 & Hs1).
    apply read_waypoint_extends in Hread; [|exact Hi|congruence].
    rewrite Hv1 in Hread.
    split; [exact Hi|]. split; [exact Hh|].
    exact (extends_trans _ _ _ [_] [_] (conj Hh1 (conj Hv1 Hs1)) Hread).
  - intros [= <-]. split; [exact Hi|]. split; [exact Hh | exact Hext1].
Qed.

Lemma write_waypoint_link (i : Z) (w : Waypoint) (validate : bool)
    (c c' : ConnectionManager) (b : bool) :
  write_waypoint i w validate c = (b, c') -> exists l, extends c l c'.
Proof.
  unfold write_waypoint.
  destruct ((i <? 0) || (i >=? MAX_WAYPOINTS)).
  { intros [= _ <-]. eexists. apply extends_refl. }
  destruct (validate && negb (validate_coordinates (lat w) (lon w) (alt w))).
  { intros [= _ <-]. eexists. apply extends_refl. }
  unfold run_or, bind, lift, ret.
  destruct (pack_waypoint i w) as [data|e].
  2: { intros [= _ <-]. eexists. apply extends_refl. }
  destruct (send_msp MSPCommands.MSP_SET_WP data false c) as [[[]|e] c1] eqn:Hsend.
  2: { apply send_msp_raise in Hsend as ->. intros [= _ <-]. eexists. apply extends_refl. }
  apply send_msp_ok in Hsend as [_ Hext1]. cbn [negb].
  destruct validate.
  - destruct (read_waypoint i c1) as [v c2] eqn:Hread. intros Hres.
    assert (c' = c2) as ->.
    { destruct v as [v|]; [destruct (verification_failed v w)|]; by injection Hres. }
    apply read_waypoint_link in Hread as [l Hl].
    eexists. exact (extends_trans _ _ _ _ _ Hext1 Hl).
  - intros [= _ <-]. eauto.
Qed.

End Link.

(** * Writing and verifying waypoints *)

Section Upload.
Import Core Planning.

Lemma on_conn_eq {A} (f : ConnectionManager -> A * ConnectionManager) (self : Mission)
    (a : A) (c : ConnectionManager) :
  f (conn self) = (a, c) -> on_conn f self = (a, set_conn self c).
Proof. intros H. unfold on_conn. by rewrite H. Qed.

Lemma on_conn_inv {A} (f : ConnectionManager -> A * ConnectionManager) (self self' : Mission)
    (a : A) :
  on_conn f self = (a, self') ->
  f (conn self) = (a, conn self') /\ self' = set_conn self (conn self').
Proof.
  unfold on_conn. destruct (f (conn self)) as [a' c]. intros [= -> <-]. done.
Qed.

Lemma set_conn_conn (self : Mission) : set_conn self (conn self) = self.
Proof. by destruct self. Qed.

Lemma set_conn_twice (self : Mission) (c1 c2 : ConnectionManager) :
  set_conn (set_conn self c1) c2 = set_conn self c2.
Proof. reflexivity. Qed.

(** C10. With verification requested, when the write of the waypoint
    went out and the read-back returns no waypoint at all,
    [set_waypoint] returns [True]: the tolerance test is reached only
    when a waypoint was read back. *)
Theorem set_waypoint_absent_verification_succeeds
    (self self2 : Mission) (wp_id : Z) (w : Waypoint) (data : bytes)
    (c1 : ConnectionManager) :
  0 <= wp_id < MAX_WAYPOINTS ->
  validate_coordinates (lat w) (lon w) (alt w) = true ->
  pack_waypoint wp_id w = Return data ->
  send_msp MSPCommands.MSP_SET_WP data false (conn self) = (Return tt, c1) ->
  get_waypoint wp_id (set_conn self c1) = (None, self2) ->
  set_waypoint wp_id w true self = (true, self2).
Proof.
  intros Hi Hv Hp Hsend Hget.
  apply on_conn_inv in Hget as [Hread ->]. cbn [conn set_conn] in *.
  unfold set_waypoint. rewrite set_conn_twice. apply on_conn_eq.
  unfold write_waypoint. rewrite (proj2 (slot_in_range wp_id) Hi), Hv.
  cbn [negb andb]. unfold run_or, bind, lift, ret. rewrite Hp, Hsend.
  cbn [negb]. rewrite Hread. reflexivity.
Qed.

Lemma set_waypoint_absent_verification_succeeds_witness :
  set_waypoint 0 Fixtures.sample_wp true Fixtures.silent_mission
  = (true, Fixtures.silent_after_readback).
Proof.
  apply (set_waypoint_absent_verification_succeeds Fixtures.silent_mission
           Fixtures.silent_after_readback 0 Fixtures.sample_wp
           Fixtures.silent_payload Fixtures.silent_after_write).
  - unfold MAX_WAYPOINTS. lia.
  - by vm_compute.
  - by vm_compute.
  - by vm_compute.
  - by vm_compute.
Defined.

(** The loop of [upload_mission] works on the connection only. *)
Lemma upload_loop_frame (validate : bool) (ws : list Waypoint) (i count : Z)
    (self self' : Mission) (r : option Z) :
  upload_loop validate i ws count self = (r, self') ->
  self' = set_conn self (conn self').
Proof.
  revert i count self. induction ws as [|w rest IH]; intros i count self.
  - cbn. intros [= _ <-]. by rewrite set_conn_conn.
  - cbn [upload_loop]. destruct (set_waypoint i w validate self) as [ok self1] eqn:Hset.
    apply on_conn_inv in Hset as [_ Hself1].
    destruct ok; [|destruct validate].
    + intros H. apply IH in H. rewrite H, Hself1. reflexivity.
    + intros [= _ <-]. rewrite Hself1 at 1. reflexivity.
    + intros H. apply IH in H. rewrite H, Hself1. reflexivity.
Qed.

(** With verification, when the loop comes to its end every waypoint was
    written and read back, in slot order, and nothing else was sent. *)
Lemma upload_loop_verified (ws : list Waypoint) (i count n : Z) (self self' : Mission) :
  upload_loop true i ws count self = (Some n, self') ->
  n = count + len ws
  /\ extends (conn self) (verified_writes (msp_v2_supported (conn self)) i ws) (conn self').
Proof.
  revert i count self. induction ws as [|w rest IH]; intros i count self.
  - cbn [upload_loop verified_writes]. intros [= <- <-].
    split; [unfold len; cbn [length]; lia | apply extends_refl].
  - cbn [upload_loop]. destruct (set_waypoint i w true self) as [ok self1] eqn:Hset.
    apply on_conn_inv in Hset as [Hwrite _].
    destruct ok; [|discriminate].
    apply write_waypoint_ok in Hwrite as (_ & _ & Hext).
    intros H. apply IH in H as [-> Hext2].
    split; [unfold len; cbn [length]; lia|].
    destruct Hext as (Hh & Hv & Hs). rewrite Hv in Hext2.
    exact (extends_trans _ _ _ [_; _] _ (conj Hh (conj Hv Hs)) Hext2).
Qed.

Lemma upload_loop_app (validate : bool) (pre post : list Waypoint) (i count : Z)
    (self : Mission) :
  upload_loop validate i (pre ++ post) count self
  = match upload_loop validate i pre count self with
    | (Some n, self1) => upload_loop validate (i + len pre) post n self1
    | (None, self1) => (None, self1)
    end.
Proof.
  revert i count self. induction pre as [|w rest IH]; intros i count self.
  - cbn. by rewrite Z.add_0_r.
  - cbn [app upload_loop]. destruct (set_waypoint i w validate self) as [ok self1].
    replace (i + len (w :: rest)) with (i + 1 + len rest)
      by (unfold len; cbn [length]; lia).
    destruct ok; [apply IH|]. destruct validate; [reflexivity | apply IH].
Qed.

Lemma verified_writes_app (v2 : bool) (i : Z) (pre post : list Waypoint) :
  verified_writes v2 i (pre ++ post)
  = verified_writes v2 i pre ++ verified_writes v2 (i + len pre) post.
Proof.
  revert i. induction pre as [|w rest IH]; intros i.
  - cbn. by rewrite Z.add_0_r.
  - cbn [app verified_writes]. rewrite IH.
    replace (i + len (w :: rest)) with (i + 1 + len rest)
      by (unfold len; cbn [length]; lia).
    reflexivity.
Qed.

(** C2. Uploading with verification: when the waypoints before index
    [i] were written and verified, waypoint [i] is written, and its
    read-back [v] differs from it by more than the tolerance, then
    [upload_mission] returns [False] with the mission as it was; the
    connection is left as the read-back of waypoint [i] left it, and what
    was sent is exactly the write and the read-back request of the
    waypoints [0..i]: no waypoint after [i] is sent. *)
Theorem upload_stops_at_verification_mismatch
    (self self_i : Mission) (pre post : list Waypoint) (w v : Waypoint)
    (data : bytes) (c1 c2 : ConnectionManager) :
  let i := len pre in
  waypoints self = pre ++ w :: post ->
  upload_loop true 0 pre 0 self = (Some i, self_i) ->
  i < MAX_WAYPOINTS ->
  validate_coordinates (lat w) (lon w) (alt w) = true ->
  pack_waypoint i w = Return data ->
  send_msp MSPCommands.MSP_SET_WP data false (conn self_i) = (Return tt, c1) ->
  read_waypoint i c1 = (Some v, c2) ->
  verification_failed v w = true ->
  upload_mission true self = (false, set_conn self c2)
  /\ sent c2 = sent (conn self)
               ++ verified_writes (msp_v2_supported (conn self)) 0 (pre ++ [w]).
Proof.
  cbv zeta. intros Hws Hpre Hi Hval Hpack Hsend Hread Hfail.
  pose proof (len_nonneg pre) as Hi0.
  assert (Hwrite : write_waypoint (len pre) w true (conn self_i) = (false, c2)).
  { unfold write_waypoint. rewrite (proj2 (slot_in_range (len pre))) by lia.
    rewrite Hval. cbn [negb andb]. unfold run_or, bind, lift, ret.
    rewrite Hpack, Hsend. cbn [negb]. rewrite Hread, Hfail. reflexivity. }
  pose proof (upload_loop_frame _ _ _ _ _ _ _ Hpre) as Hframe.
  pose proof (upload_loop_verified _ _ _ _ _ _ Hpre) as [_ Hext].
  split.
  - unfold upload_mission. rewrite Hws.
    destruct (pre ++ w :: post) as [|w0 l0] eqn:E; [by destruct pre|]. rewrite <- E.
    rewrite upload_loop_app, Hpre. cbn [upload_loop]. rewrite Z.add_0_l.
    unfold set_waypoint. rewrite (on_conn_eq _ _ _ _ Hwrite).
    rewrite Hframe, set_conn_twice. reflexivity.
  - apply send_msp_ok in Hsend as [Hh Hext1].
    apply read_waypoint_extends in Hread;
      [|lia|destruct Hext1 as (-> & _ & _); exact Hh].
    destruct Hext as (Hh0 & Hv0 & Hs0). destruct Hext1 as (Hh1 & Hv1 & Hs1).
    destruct Hread as (_ & _ & Hs2).
    rewrite Hs2, Hs1, Hs0, Hv1, Hv0, verified_writes_app, Z.add_0_l.
    cbn [verified_writes]. unfold set_wp_packet. rewrite Hpack.
    by rewrite <- !app_assoc.
Qed.

Lemma upload_stops_at_verification_mismatch_witness :
  upload_mission true Fixtures.five_mission
  = (false, set_conn Fixtures.five_mission Fixtures.five_after_readback)
  /\ sent Fixtures.five_after_readback
     = verified_writes false 0
         [Fixtures.sample_wp; Fixtures.sample_wp; Fixtures.sample_wp; Fixtures.sample_wp].
Proof.
  apply (upload_stops_at_verification_mismatch Fixtures.five_mission
           Fixtures.five_after_three
           [Fixtures.sample_wp; Fixtures.sample_wp; Fixtures.sample_wp]
           [Fixtures.sample_wp] Fixtures.sample_wp Fixtures.five_readback
           Fixtures.five_payload Fixtures.five_after_write Fixtures.five_after_readback).
  - reflexivity.
  - by vm_compute.
  - by vm_compute.
  - by vm_compute.
  - by vm_compute.
  - by vm_compute.
  - by vm_compute.
  - by vm_compute.
Defined.

End Upload.

(** * Clearing the trailing slots *)

Section TrailingClear.
Import Core Planning.

Lemma py_int_empty_lat : py_int (lat empty_wp * 1e7) = Return 0.
Proof. by vm_compute. Qed.

Lemma py_int_empty_lon : py_int (lon empty_wp * 1e7) = Return 0.
Proof. by vm_compute. Qed.

Lemma py_int_empty_alt : py_int (alt empty_wp * 100) = Return 0.
Proof. by vm_compute. Qed.

Lemma pack_empty_wp (i : Z) :
  0 <= i < MAX_WAYPOINTS ->
  pack_waypoint i empty_wp = Return (le_bytes 1 i ++ replicate 20 "000"%byte).
Proof.
  intros Hi. unfold pack_waypoint.
  rewrite py_int_empty_lat, py_int_empty_lon, py_int_empty_alt. cbn [obind].
  rewrite (pack_B_slot i Hi). reflexivity.
Qed.

(** Writing the empty waypoint into a valid slot of a healthy link
    succeeds and sends the packet for that slot. *)
Lemma clear_slot (i : Z) (c : ConnectionManager) :
  0 <= i < MAX_WAYPOINTS -> healthy c = true ->
  extends c [set_wp_packet (msp_v2_supported c) i empty_wp]
    (snd (write_waypoint i empty_wp false c)).
Proof.
  intros Hi Hh.
  destruct (write_waypoint i empty_wp false c) as [ok c'] eqn:Hw. cbn [snd].
  destruct ok; [by apply write_waypoint_ok in Hw as (_ & _ & H)|].
  exfalso. revert Hw. unfold write_waypoint.
  rewrite (proj2 (slot_in_range i) Hi). cbn [andb].
  unfold run_or, bind, lift, ret. rewrite (pack_empty_wp i Hi).
  destruct (request_total (msp_v2_supported c) MSPCommands.MSP_SET_WP
              (le_bytes 1 i ++ replicate 20 "000"%byte)) as [p Hp];
    [unfold MSPCommands.MSP_SET_WP; lia | by vm_compute |].
  destruct (send_msp_healthy _ _ _ c Hh Hp) as [c1 ->]. discriminate.
Qed.

Lemma clear_loop_sent (ids : list Z) (self : Mission) :
  Forall (fun i => 0 <= i < MAX_WAYPOINTS) ids ->
  healthy (conn self) = true ->
  clear_loop ids self = set_conn self (conn (clear_loop ids self))
  /\ extends (conn self)
       ((fun i => set_wp_packet (msp_v2_supported (conn self)) i empty_wp) <$> ids)
       (conn (clear_loop ids self)).
Proof.
  intros Hids. revert self. induction Hids as [|i rest Hi _ IH]; intros self Hh.
  - cbn. split; [by rewrite set_conn_conn | apply extends_refl].
  - cbn [clear_loop fmap list_fmap].
    pose proof (clear_slot i (conn self) Hi Hh) as Hext.
    unfold set_waypoint, on_conn.
    destruct (write_waypoint i empty_wp false (conn self)) as [ok c1]. cbn [snd] in *.
    destruct Hext as (Hh1 & Hv1 & Hs1).
    destruct (IH (set_conn self c1)) as [Hframe Hext2]; [cbn [conn set_conn]; congruence|].
    cbn [conn set_conn] in Hext2. rewrite Hv1 in Hext2. split.
    + rewrite Hframe at 1. reflexivity.
    + exact (extends_trans _ _ _ [_] _ (conj Hh1 (conj Hv1 Hs1)) Hext2).
Qed.

(** When the upload loop counts every waypoint as a success, they all
    fit the slots and the link is healthy afterwards. *)
Lemma upload_loop_all_succeeded (validate : bool) (ws : list Waypoint) (i count n : Z)
    (self self' : Mission) :
  upload_loop validate i ws count self = (Some n, self') ->
  n <= count + len ws
  /\ (n = count + len ws -> ws <> [] ->
      i + len ws <= MAX_WAYPOINTS
      /\ healthy (conn self') = true
      /\ msp_v2_supported (conn self') = msp_v2_supported (conn self)).
Proof.
  revert i count self. induction ws as [|w rest IH]; intros i count self.
  - cbn [upload_loop]. intros [= <- <-]. unfold len; cbn [length]. split; [lia|done].
  - cbn [upload_loop]. destruct (set_waypoint i w validate self) as [ok self1] eqn:Hset.
    apply on_conn_inv in Hset as [Hwrite _].
    assert (Hlen : len (w :: rest) = 1 + len rest) by (unfold len; cbn [length]; lia).
    pose proof (len_nonneg rest) as Hrest.
    destruct ok.
    + apply write_waypoint_ok in Hwrite as (Hi & Hh & Hh1 & Hv1 & _).
      intros Hloop. destruct (IH _ _ _ Hloop) as [Hle Hall].
      split; [lia|]. intros Hn _.
      destruct rest as [|w2 rest2].
      * cbn [upload_loop] in Hloop. injection Hloop as _ <-.
        unfold len in *; cbn [length] in *. repeat split; [lia | congruence | exact Hv1].
      * destruct Hall as (H1 & H2 & H3); [lia | done |].
        repeat split; [lia | exact H2 | congruence].
    + destruct validate; [discriminate|].
      intros Hloop. destruct (IH _ _ _ Hloop) as [Hle _].
      split; [lia|]. intros Hn. lia.
Qed.

Lemma upload_mission_nonempty (validate : bool) (self : Mission) :
  waypoints self <> [] ->
  upload_mission validate self
  = match upload_loop validate 0 (waypoints self) 0 self with
    | (None, self1) => (false, self1)
    | (Some success_count, self1) =>
        let self2 := clear_loop (slots_to_clear success_count) self1 in
        if success_count =? len (waypoints self) then (true, set_loaded self2 true)
        else (false, self2)
    end.
Proof. unfold upload_mission. by destruct (waypoints self). Qed.

(** C9 (as amended). After all [N] waypoints of an upload succeeded,
    [upload_mission] returns [True] and what it sends after the last
    waypoint is exactly one write of the empty waypoint for each slot
    [N, N+1, ..., min(N+5, 60) - 1], in that order: at most five slots,
    and none at index [min(N+5, 60)] or beyond. *)
Theorem upload_clears_trailing_window
    (validate : bool) (self self1 : Mission) :
  let N := len (waypoints self) in
  waypoints self <> [] ->
  upload_loop validate 0 (waypoints self) 0 self = (Some N, self1) ->
  exists self2,
    upload_mission validate self = (true, self2)
    /\ _mission_loaded self2 = true
    /\ sent (conn self2)
       = sent (conn self1)
         ++ ((fun i => set_wp_packet (msp_v2_supported (conn self)) i empty_wp)
               <$> Spec.window_half_open N).
Proof.
  cbv zeta. intros Hne Hloop.
  destruct (upload_loop_all_succeeded _ _ _ _ _ _ _ Hloop) as [_ Hall].
  destruct Hall as (HN & Hh & Hv); [lia | exact Hne |].
  pose proof (len_nonneg (waypoints self)) as HN0.
  set (N := len (waypoints self)) in *.
  assert (Hslots : slots_to_clear N = Spec.window_half_open N).
  { unfold slots_to_clear, Spec.window_half_open, py_range, MAX_WAYPOINTS in *.
    destruct (Z.ltb_spec N 60); [reflexivity|].
    replace N with 60 by lia. reflexivity. }
  destruct (clear_loop_sent (slots_to_clear N) self1) as [_ (_ & _ & Hsent)];
    [|exact Hh|].
  { rewrite Hslots. unfold Spec.window_half_open, MAX_WAYPOINTS in *.
    apply Forall_seqZ. intros j Hj. lia. }
  exists (set_loaded (clear_loop (slots_to_clear N) self1) true). split; [|split].
  - rewrite (upload_mission_nonempty _ _ Hne). fold N.
    rewrite Hloop, Z.eqb_refl. reflexivity.
  - reflexivity.
  - cbn [conn set_loaded]. rewrite Hsent, Hslots, Hv. reflexivity.
Qed.

Lemma upload_clears_trailing_window_witness :
  exists self2,
    upload_mission false Fixtures.silent_mission = (true, self2)
    /\ _mission_loaded self2 = true
    /\ sent (conn self2)
       = [set_wp_packet false 0 Fixtures.sample_wp]
         ++ ((fun i => set_wp_packet false i empty_wp) <$> [1; 2; 3; 4; 5]).
Proof.
  apply (upload_clears_trailing_window false Fixtures.silent_mission
           (set_conn Fixtures.silent_mission Fixtures.silent_after_write)).
  - discriminate.
  - by vm_compute.
Defined.

(** C9 as stated fails: with the window read as [N..min(N+5, 60)], both
    ends included, slot 6 would be cleared after a one-waypoint upload.
    The upload of one waypoint succeeds, yet what is sent after it is not
    the writes for the slots 1 to 6, and no write for slot 6 is sent. *)
Lemma trailing_clear_closed_window_counterexample :
  let m := Fixtures.silent_mission in
  let after_uploads := set_conn m Fixtures.silent_after_write in
  upload_loop false 0 (waypoints m) 0 m = (Some (len (waypoints m)), after_uploads)
  /\ fst (upload_mission false m) = true
  /\ sent (conn (snd (upload_mission false m)))
     <> sent (conn after_uploads)
        ++ ((fun i => set_wp_packet false i empty_wp)
              <$> Spec.window_closed (len (waypoints m)))
  /\ ~ In (set_wp_packet false 6 empty_wp) (sent (conn (snd (upload_mission false m)))).
Proof.
  cbv zeta. split; [by vm_compute|]. split; [by vm_compute|]. split.
  - vm_compute. discriminate.
  - vm_compute. intros H. repeat (destruct H as [H|H]; [discriminate H|]). exact H.
Qed.

End TrailingClear.

(** * Download *)

Section Download.
Import Core Planning.

Lemma get_waypoint_eq (i : Z) (self : Mission) (r : option Waypoint)
    (c : ConnectionManager) :
  read_waypoint i (conn self) = (r, c) -> get_waypoint i self = (r, set_conn self c).
Proof. apply on_conn_eq. Qed.

(** While the slots hold waypoints, the loop appends them and moves on. *)
Lemma download_loop_reads (ws : list Waypoint) (i n : Z) (self : Mission)
    (c1 : ConnectionManager) :
  slots_hold i ws (conn self) c1 ->
  len ws <= n ->
  download_loop (seqZ i n) self
  = download_loop (seqZ (i + len ws) (n - len ws))
      (mkMission c1 (fc_type self) (waypoints self ++ ws) (_mission_loaded self)).
Proof.
  revert i n self. induction ws as [|w rest IH]; intros i n self Hhold Hn.
  - cbn [slots_hold] in Hhold. subst c1. unfold len; cbn [length].
    rewrite Z.add_0_r, Z.sub_0_r, app_nil_r. by destruct self.
  - destruct Hhold as (c & Hread & Hnz & Hrest).
    assert (Hlen : len (w :: rest) = 1 + len rest) by (unfold len; cbn [length]; lia).
    pose proof (len_nonneg rest) as H0.
    rewrite seqZ_cons by lia. cbn [download_loop].
    rewrite (get_waypoint_eq _ _ _ _ Hread), Hnz.
    change (Z.succ i) with (i + 1).
    rewrite (IH (i + 1) (Z.pred n)
               (set_waypoints (set_conn self c) (waypoints (set_conn self c) ++ [w]))
               Hrest) by lia.
    cbn [conn fc_type waypoints _mission_loaded set_waypoints set_conn].
    rewrite <- app_assoc, Hlen. cbn [app]. f_equal. f_equal; lia.
Qed.

(** The loop stops at a slot whose read gives no waypoint to keep. *)
Lemma download_loop_stops (i n : Z) (self : Mission) (r : option Waypoint)
    (c : ConnectionManager) :
  0 < n ->
  read_waypoint i (conn self) = (r, c) ->
  match r with
  | Some s => nonzero (lat s) || nonzero (lon s) = false
  | None => True
  end ->
  download_loop (seqZ i n) self = set_conn self c.
Proof.
  intros Hn Hread Hr. rewrite seqZ_cons by lia. cbn [download_loop].
  rewrite (get_waypoint_eq _ _ _ _ Hread).
  destruct r as [s|]; [by rewrite Hr | reflexivity].
Qed.

Lemma download_mission_reads (self : Mission) (ws : list Waypoint)
    (c1 : ConnectionManager) :
  slots_hold 0 ws (conn self) c1 ->
  len ws <= MAX_WAYPOINTS ->
  download_mission self
  = (true,
     set_loaded
       (download_loop (seqZ (len ws) (MAX_WAYPOINTS - len ws))
          (mkMission c1 (fc_type self) ws (_mission_loaded self))) true).
Proof.
  intros Hhold Hlen. unfold download_mission, py_range.
  rewrite (download_loop_reads ws 0 (MAX_WAYPOINTS - 0) (set_waypoints self []) c1)
    by (cbn [conn set_waypoints]; first [exact Hhold | lia]).
  rewrite Z.add_0_l, Z.sub_0_r. reflexivity.
Qed.

(** C6. [download_mission] reads the slots in index order from 0; when
    the slots [0..k-1] hold waypoints that are not at latitude and
    longitude zero and slot [k] (below 60) holds one whose latitude and
    longitude are both zero, it stops there: it returns [True], the
    mission holds exactly the [k] waypoints read before, whatever it held
    before, and is marked loaded.  When all 60 slots hold such waypoints
    it returns the 60 of them. *)
Theorem download_stops_at_sentinel (self : Mission) (ws : list Waypoint)
    (c1 : ConnectionManager) :
  slots_hold 0 ws (conn self) c1 ->
  (forall (s : Waypoint) (c2 : ConnectionManager),
     len ws < MAX_WAYPOINTS ->
     read_waypoint (len ws) c1 = (Some s, c2) ->
     nonzero (lat s) || nonzero (lon s) = false ->
     download_mission self = (true, mkMission c2 (fc_type self) ws true))
  /\ (len ws = MAX_WAYPOINTS ->
      download_mission self = (true, mkMission c1 (fc_type self) ws true)).
Proof.
  intros Hhold. split.
  - intros s c2 Hlen Hread Hzero.
    rewrite (download_mission_reads self ws c1 Hhold) by lia.
    rewrite (download_loop_stops _ _ _ (Some s) c2) 
      by (cbn [conn]; first [lia | exact Hread | exact Hzero]).
    reflexivity.
  - intros Hlen. rewrite (download_mission_reads self ws c1 Hhold) by lia.
    rewrite Hlen, Z.sub_diag. reflexivity.
Qed.

Lemma download_stops_at_sentinel_witness :
  download_mission Fixtures.three_mission
  = (true, mkMission Fixtures.three_after_sentinel INAV Fixtures.three_waypoints true)
  /\ length Fixtures.three_waypoints = 3%nat.
Proof.
  split; [|reflexivity].
  destruct (download_stops_at_sentinel Fixtures.three_mission Fixtures.three_waypoints
              Fixtures.three_before_sentinel) as [H _].
  - cbn [slots_hold Fixtures.three_waypoints].
    eexists. split; [by vm_compute|]. split; [by vm_compute|].
    eexists. split; [by vm_compute|]. split; [by vm_compute|].
    eexists. split; [by vm_compute|]. split; [by vm_compute|].
    by vm_compute.
  - apply (H empty_wp Fixtures.three_after_sentinel).
    + by vm_compute.
    + by vm_compute.
    + by vm_compute.
Defined.

(** C1 (as amended). When the read of slot [k] returns no waypoint
    before any all-zero waypoint was met, [download_mission] stops there
    and treats the slot as the end of the mission: it returns [True],
    the mission holds the waypoints read from the slots [0..k-1], and it
    is marked loaded. *)
Theorem download_keeps_waypoints_read_before_failure
    (self : Mission) (ws : list Waypoint) (c1 c2 : ConnectionManager) :
  slots_hold 0 ws (conn self) c1 ->
  len ws < MAX_WAYPOINTS ->
  read_waypoint (len ws) c1 = (None, c2) ->
  download_mission self = (true, mkMission c2 (fc_type self) ws true).
Proof.
  intros Hhold Hlen Hread.
  rewrite (download_mission_reads self ws c1 Hhold) by lia.
  rewrite (download_loop_stops _ _ _ None c2) 
    by (cbn [conn]; first [lia | exact Hread | exact I]).
  reflexivity.
Qed.

Lemma download_keeps_waypoints_read_before_failure_witness :
  download_mission Fixtures.fading_mission
  = (true, mkMission Fixtures.fading_after_silence INAV [Fixtures.fading_first] true).
Proof.
  apply (download_keeps_waypoints_read_before_failure Fixtures.fading_mission
           [Fixtures.fading_first] Fixtures.fading_after_first Fixtures.fading_after_silence).
  - cbn [slots_hold]. eexists. split; [by vm_compute|]. split; [by vm_compute|].
    reflexivity.
  - by vm_compute.
  - by vm_compute.
Defined.

(** C1 as stated fails.  The device answers the read of slot 0 with a
    waypoint and gives nothing for slot 1, so the read of slot 1 fails
    before any sentinel; the download does not abort: it returns [True],
    keeps the waypoint of slot 0 and marks the mission loaded. *)
Lemma download_failed_read_counterexample :
  let m := Fixtures.fading_mission in
  read_waypoint 0 (conn m) = (Some Fixtures.fading_first, Fixtures.fading_after_first)
  /\ nonzero (lat Fixtures.fading_first) = true
  /\ read_waypoint 1 Fixtures.fading_after_first = (None, Fixtures.fading_after_silence)
  /\ fst (download_mission m) = true
  /\ waypoints (snd (download_mission m)) = [Fixtures.fading_first]
  /\ _mission_loaded (snd (download_mission m)) = true
  /\ ~ (fst (download_mission m) = false
        /\ waypoints (snd (download_mission m)) = []
        /\ _mission_loaded (snd (download_mission m)) = false).
Proof.
  cbv zeta. repeat (split; [by vm_compute|]).
  intros (H & _). vm_compute in H. discriminate.
Qed.

End Download.

(** * Mission files and capacity *)

Section Files.
Import Core Planning.
Context {libm : Libm}.

Lemma from_dict_to_dict (w : Waypoint) : from_dict (to_dict w) = Return (Some w).
Proof. by destruct w. Qed.

Lemma load_loop_to_dict (ws : list Waypoint) (self : Mission) :
  load_loop (to_dict <$> ws) self
  = Some (true, set_waypoints self (waypoints self ++ ws)).
Proof.
  revert self. induction ws as [|w rest IH]; intros self.
  - cbn. rewrite app_nil_r. by destruct self.
  - cbn [fmap list_fmap load_loop]. rewrite from_dict_to_dict.
    change (list_fmap Waypoint json to_dict rest) with (to_dict <$> rest).
    rewrite IH. cbn [set_waypoints waypoints conn fc_type _mission_loaded].
    by rewrite <- app_assoc.
Qed.

(** Loading a file whose ["waypoints"] entry lists the dictionaries of
    [ws] installs exactly [ws], however many they are. *)
Lemma load_waypoints_of_file (filename : string) (target : Mission) (fs : FileSystem)
    (o : gmap string json) (ws : list Waypoint) :
  fs !! filename = Some (JObject o) ->
  o !! "waypoints" = Some (JList (to_dict <$> ws)) ->
  load_mission_from_file filename target fs
  = Some (true, mkMission (conn target) (fc_type target) ws false).
Proof.
  intros Hfile Hws. unfold load_mission_from_file. rewrite Hfile.
  cbn [dict_get]. rewrite Hws. cbn [obind iterate].
  rewrite load_loop_to_dict. reflexivity.
Qed.


End Files.

Section FilesExamples.
Import Core Planning.



(** C3 fails on the code at this input: a mission file that lists 61
    waypoints loads, with [True] returned, into a mission of 61
    waypoints, above [MAX_WAYPOINTS]. *)
Theorem load_mission_exceeds_capacity :
  load_mission_from_file "crowded.json" (new Fixtures.quiet_conn) Fixtures.crowded_disk
  = Some (true, set_waypoints (new Fixtures.quiet_conn) (replicate 61 Fixtures.sample_wp))
  /\ get_waypoint_count ∘ snd
       <$> load_mission_from_file "crowded.json" (new Fixtures.quiet_conn)
             Fixtures.crowded_disk
     = Some 61
  /\ MAX_WAYPOINTS < 61.
Proof.
  assert (E : load_mission_from_file "crowded.json" (new Fixtures.quiet_conn)
                Fixtures.crowded_disk
              = Some (true, set_waypoints (new Fixtures.quiet_conn)
                              (replicate 61 Fixtures.sample_wp))).
  { eapply load_waypoints_of_file; [apply lookup_insert_eq|]. reflexivity. }
  split; [exact E|]. rewrite E. split; [reflexivity|]. unfold MAX_WAYPOINTS. lia.
Qed.

(** The other operations keep a mission within its capacity. *)
Lemma add_waypoint_at_capacity (self : Mission) (lat lon alt : float)
    (action param1 param2 param3 flag : Z) :
  len (waypoints self) = MAX_WAYPOINTS ->
  add_waypoint lat lon alt action param1 param2 param3 flag self = (false, self).
Proof.
  intros Hfull. unfold add_waypoint. rewrite Hfull. reflexivity.
Qed.

Lemma add_waypoint_capacity (self : Mission) (lat lon alt : float)
    (action param1 param2 param3 flag : Z) :
  len (waypoints self) <= MAX_WAYPOINTS ->
  len (waypoints (snd (add_waypoint lat lon alt action param1 param2 param3 flag self)))
  <= MAX_WAYPOINTS.
Proof.
  intros Hcap. unfold add_waypoint.
  destruct (Z.geb_spec (len (waypoints self)) MAX_WAYPOINTS); [exact Hcap|].
  destruct (validate_coordinates lat lon alt); cbn [negb snd]; [|exact Hcap].
  cbn [waypoints set_waypoints]. unfold len in *. rewrite length_app. cbn [length]. lia.
Qed.

Lemma insert_waypoint_capacity (self : Mission) (index : Z) (lat lon alt : float)
    (action param1 param2 param3 flag : Z) :
  len (waypoints self) <= MAX_WAYPOINTS ->
  len (waypoints
         (snd (insert_waypoint index lat lon alt action param1 param2 param3 flag self)))
  <= MAX_WAYPOINTS.
Proof.
  intros Hcap. unfold insert_waypoint.
  destruct ((index <? 0) || (index >? len (waypoints self))); [exact Hcap|].
  destruct (Z.geb_spec (len (waypoints self)) MAX_WAYPOINTS); [exact Hcap|].
  destruct (validate_coordinates lat lon alt); cbn [negb snd]; [|exact Hcap].
  cbn [waypoints set_waypoints]. unfold len in *.
  rewrite length_app. cbn [length]. rewrite length_take, length_drop. lia.
Qed.

Lemma remove_waypoint_capacity (self : Mission) (index : Z) :
  len (waypoints self) <= MAX_WAYPOINTS ->
  len (waypoints (snd (remove_waypoint index self))) <= MAX_WAYPOINTS.
Proof.
  intros Hcap. unfold remove_waypoint.
  destruct ((index <? 0) || (index >=? len (waypoints self))) eqn:Hi; [exact Hcap|].
  apply orb_false_iff in Hi as [H0 H1].
  apply Z.ltb_ge in H0. rewrite Z.geb_leb in H1. apply Z.leb_gt in H1.
  cbn [snd waypoints set_waypoints]. unfold len in *.
  rewrite length_delete by (apply lookup_lt_is_Some; lia). lia.
Qed.

Lemma clear_mission_capacity (self : Mission) :
  len (waypoints (snd (clear_mission self))) <= MAX_WAYPOINTS.
Proof. by vm_compute. Qed.

Lemma download_loop_length (ids : list Z) (self : Mission) :
  len (waypoints (download_loop ids self)) <= len (waypoints self) + len ids.
Proof.
  revert self. induction ids as [|i rest IH]; intros self.
  - cbn. unfold len. cbn [length]. lia.
  - cbn [download_loop]. destruct (get_waypoint i self) as [r self1] eqn:Hget.
    apply on_conn_inv in Hget as [_ ->].
    assert (Hlen : len (i :: rest) = 1 + len rest) by (unfold len; cbn [length]; lia).
    pose proof (len_nonneg rest).
    destruct r as [w|]; [|cbn [waypoints set_conn]; lia].
    destruct (nonzero (lat w) || nonzero (lon w)); [|cbn [waypoints set_conn]; lia].
    etransitivity; [apply IH|]. cbn [waypoints set_waypoints set_conn].
    unfold len in *. rewrite length_app. cbn [length]. lia.
Qed.

Lemma download_mission_capacity (self : Mission) :
  len (waypoints (snd (download_mission self))) <= MAX_WAYPOINTS.
Proof.
  unfold download_mission. cbn [snd waypoints set_loaded].
  etransitivity; [apply download_loop_length|].
  cbn [waypoints set_waypoints]. unfold py_range, len.
  rewrite length_seqZ. unfold MAX_WAYPOINTS. cbn. lia.
Qed.

End FilesExamples.

(** * Further properties of the transport *)

Section TransportExtras.
Import Core.

(** A complete V1 frame after [noise], met before the deadline, is
    returned when its checksum byte is the recomputed one. *)
Lemma read_response_v1_valid (c : ConnectionManager) (s : Serial) (t : option nat)
    (noise : bytes) (size code chk : byte) (data : bytes) (rest : list rx_event) :
  ser c = Some s ->
  Forall (fun b => b <> "$"%byte) noise ->
  (length noise < deadline t c)%nat ->
  rx s = (RxByte <$> noise ++ MSP_V1_RESPONSE ++ [size; code] ++ data ++ [chk]) ++ rest ->
  len data = byte_to_Z size ->
  byte_to_Z chk = _calculate_checksum_v1 (byte_to_Z size) (byte_to_Z code) data ->
  read_response t c
  = (Return (Some (byte_to_Z code), Some data),
     set_ser c (mkSerial rest (tx s) (tx_fault s))).
Proof.
  intros Hs Hn Hd Hrx Hlen Hchk.
  apply (read_response_scan c s _ t _ Hs).
  destruct (read_response_frame c s t noise "M" ">" ([size; code] ++ data ++ [chk])
              rest Hs Hn Hd Hrx) as [polls ->].
  erewrite scan_header_found by reflexivity.
  cbn zeta. rewrite bool_decide_eq_true_2 by reflexivity.
  erewrite read_v1_complete; [|reflexivity|exact Hlen].
  rewrite Hchk, Z.eqb_refl. reflexivity.
Qed.

Lemma read_response_v2_valid (c : ConnectionManager) (s : Serial) (t : option nat)
    (noise : bytes) (flag c0 c1 s0 s1 crc : byte) (data : bytes) (rest : list rx_event) :
  ser c = Some s ->
  Forall (fun b => b <> "$"%byte) noise ->
  (length noise < deadline t c)%nat ->
  rx s = (RxByte <$> noise ++ MSP_V2_RESPONSE ++ [flag; c0; c1; s0; s1] ++ data ++ [crc])
         ++ rest ->
  len data = le_value [s0; s1] ->
  byte_to_Z crc = _calculate_crc_v2 ([flag; c0; c1; s0; s1] ++ data) ->
  read_response t c
  = (Return (Some (le_value [c0; c1]), Some data),
     set_ser c (mkSerial rest (tx s) (tx_fault s))).
Proof.
  intros Hs Hn Hd Hrx Hlen Hcrc.
  apply (read_response_scan c s _ t _ Hs).
  destruct (read_response_frame c s t noise "X" ">"
              ([flag; c0; c1; s0; s1] ++ data ++ [crc]) rest Hs Hn Hd Hrx)
    as [polls ->].
  erewrite scan_header_found by reflexivity.
  cbn zeta. rewrite bool_decide_eq_false_2 by discriminate.
  rewrite bool_decide_eq_true_2 by reflexivity.
  erewrite read_v2_complete; [|reflexivity|exact Hlen].
  rewrite Hcrc, Z.eqb_refl. reflexivity.
Qed.

Lemma le_value_u16 (v : Z) :
  0 <= v <= 65535 -> le_value [byte_of_Z v; byte_of_Z (v / 256)] = v.
Proof.
  intros Hv. cbn [le_value]. rewrite !byte_to_of_Z.
  rewrite (Z.mod_small (v / 256))
    by (split; [apply Z.div_pos; lia | apply Z.div_lt_upper_bound; lia]).
  pose proof (Z.div_mod v 256 ltac:(lia)). lia.
Qed.

(** X1. V1 codec round trip: the frame [send_msp_v1] builds for a code
    and a payload, coming back under the response header ['$','M','>'],
    is read by [read_response] as that code and that payload, and nothing
    after the frame is consumed. *)
Theorem v1_frame_round_trip (c : ConnectionManager) (s : Serial) (t : option nat)
    (code : Z) (data body : bytes) (rest : list rx_event) :
  ser c = Some s ->
  (0 < deadline t c)%nat ->
  0 <= code <= 255 ->
  len data <= 255 ->
  encode_v1 code data = Return (MSP_V1_HEADER ++ body) ->
  rx s = (RxByte <$> MSP_V1_RESPONSE ++ body) ++ rest ->
  read_response t c
  = (Return (Some code, Some data), set_ser c (mkSerial rest (tx s) (tx_fault s))).
Proof.
  intros Hs Hd Hc Hl Henc Hrx.
  pose proof (len_nonneg data) as H0.
  pose proof (checksum_v1_range (len data) code data ltac:(lia) ltac:(lia)) as Hk.
  rewrite encode_v1_in_range in Henc by assumption.
  injection Henc as Henc. subst body.
  rewrite <- (byte_to_of_Z_small code) at 1 by lia.
  apply (read_response_v1_valid c s t [] (byte_of_Z (len data)) (byte_of_Z code)
           (byte_of_Z (_calculate_checksum_v1 (len data) code data)) data rest Hs).
  - constructor.
  - exact Hd.
  - exact Hrx.
  - rewrite byte_to_of_Z_small; lia.
  - rewrite !byte_to_of_Z_small by lia. reflexivity.
Qed.

Lemma v1_frame_round_trip_witness :
  read_response None
    (Fixtures.conn_reading (RxByte <$> ["$"; "M"; ">"; "001"; "v"; "003"; "t"]%byte))
  = (Return (Some 118, Some ["003"%byte]), Fixtures.conn_reading []).
Proof.
  apply (v1_frame_round_trip
           (Fixtures.conn_reading (RxByte <$> ["$"; "M"; ">"; "001"; "v"; "003"; "t"]%byte))
           _ None 118 ["003"%byte] ["001"; "v"; "003"; "t"]%byte [] eq_refl).
  - cbn. lia.
  - lia.
  - by vm_compute.
  - by vm_compute.
  - reflexivity.
Defined.

(** X2. V2 codec round trip: the frame [send_msp_v2] builds, coming back
    under the response header ['$','X','>'], is read by [read_response]
    as the same code and payload. *)
Theorem v2_frame_round_trip (c : ConnectionManager) (s : Serial) (t : option nat)
    (code : Z) (data body : bytes) (rest : list rx_event) :
  ser c = Some s ->
  (0 < deadline t c)%nat ->
  0 <= code <= 65535 ->
  len data <= 65535 ->
  encode_v2 code data = Return (MSP_V2_HEADER ++ body) ->
  rx s = (RxByte <$> MSP_V2_RESPONSE ++ body) ++ rest ->
  read_response t c
  = (Return (Some code, Some data), set_ser c (mkSerial rest (tx s) (tx_fault s))).
Proof.
  intros Hs Hd Hc Hl Henc Hrx.
  pose proof (len_nonneg data) as H0.
  pose proof (crc_v2_range (v2_covered code data)) as Hk.
  rewrite encode_v2_in_range in Henc by assumption.
  injection Henc as Henc. subst body.
  rewrite <- (le_value_u16 code) at 1 by lia.
  apply (read_response_v2_valid c s t [] (byte_of_Z 0) (byte_of_Z code)
           (byte_of_Z (code / 256)) (byte_of_Z (len data)) (byte_of_Z (len data / 256))
           (byte_of_Z (_calculate_crc_v2 (v2_covered code data))) data rest Hs).
  - constructor.
  - exact Hd.
  - rewrite Hrx. unfold v2_covered. rewrite <- ?app_assoc. reflexivity.
  - rewrite le_value_u16; lia.
  - rewrite byte_to_of_Z_small by lia. reflexivity.
Qed.

Lemma v2_frame_round_trip_witness :
  read_response None
    (Fixtures.conn_reading
       (RxByte <$> ["$"; "X"; ">"; "000"; "v"; "000"; "001"; "000"; "003"; "225"]%byte))
  = (Return (Some 118, Some ["003"%byte]), Fixtures.conn_reading []).
Proof.
  apply (v2_frame_round_trip
           (Fixtures.conn_reading
              (RxByte <$> ["$"; "X"; ">"; "000"; "v"; "000"; "001"; "000"; "003"; "225"]%byte))
           _ None 118 ["003"%byte]
           ["000"; "v"; "000"; "001"; "000"; "003"; "225"]%byte [] eq_refl).
  - cbn. lia.
  - lia.
  - by vm_compute.
  - by vm_compute.
  - reflexivity.
Defined.

Lemma lxor_cancel_l (a x y : Z) : Z.lxor a x = Z.lxor a y -> x = y.
Proof.
  intros H. apply (f_equal (Z.lxor a)) in H.
  by rewrite <- !Z.lxor_assoc, Z.lxor_nilpotent, !Z.lxor_0_l in H.
Qed.

Lemma lxor_cancel_r (a x y : Z) : Z.lxor x a = Z.lxor y a -> x = y.
Proof. rewrite !(Z.lxor_comm _ a). apply lxor_cancel_l. Qed.

Lemma byte_to_Z_inj (b b' : byte) : byte_to_Z b = byte_to_Z b' -> b = b'.
Proof. intros H. rewrite <- (byte_of_to_Z b), <- (byte_of_to_Z b'). by rewrite H. Qed.

Lemma fold_xor_app (l1 l2 : list Z) :
  Spec.fold_xor (l1 ++ l2) = Z.lxor (Spec.fold_xor l1) (Spec.fold_xor l2).
Proof.
  induction l1 as [|x r IH]; cbn [app Spec.fold_xor fold_right].
  - by rewrite Z.lxor_0_l.
  - fold (Spec.fold_xor (r ++ l2)). fold (Spec.fold_xor r).
    by rewrite IH, Z.lxor_assoc.
Qed.

(** X3. The V1 checksum tells any two payloads apart that differ in
    exactly one byte. *)
Theorem checksum_v1_detects_changed_byte (size code : Z) (pre post : bytes) (b b' : byte) :
  b <> b' ->
  _calculate_checksum_v1 size code (pre ++ b :: post)
  <> _calculate_checksum_v1 size code (pre ++ b' :: post).
Proof.
  intros Hne H. rewrite !checksum_v1_spec, !fmap_app, !fmap_cons in H.
  apply lxor_cancel_l in H. rewrite !fold_xor_app in H. apply lxor_cancel_l in H.
  cbn [Spec.fold_xor fold_right] in H. apply lxor_cancel_r in H.
  apply Hne, byte_to_Z_inj, H.
Qed.

Lemma checksum_v1_detects_changed_byte_witness :
  _calculate_checksum_v1 3 118 ["001"; "002"; "003"]%byte
  <> _calculate_checksum_v1 3 118 ["001"; "018"; "003"]%byte.
Proof.
  apply (checksum_v1_detects_changed_byte 3 118 ["001"%byte] ["003"%byte]
           "002"%byte "018"%byte).
  discriminate.
Defined.

Lemma crc_unshift_shift (v : Z) :
  0 <= v < 256 -> CrcInverse.crc_unshift (crc_shift v) = v.
Proof.
  intros Hv.
  assert (Hall : forallb (fun v => CrcInverse.crc_unshift (crc_shift v) =? v)
                   (seqZ 0 256) = true) by (by vm_compute).
  rewrite forallb_forall in Hall. apply Z.eqb_eq, Hall.
  apply list_elem_of_In, elem_of_seqZ. lia.
Qed.

Lemma crc_unwind_iter (v : Z) :
  0 <= v < 256 -> CrcInverse.crc_unwind (Nat.iter 8 crc_shift v) = v.
Proof.
  intros Hv. unfold CrcInverse.crc_unwind. cbn [Nat.iter nat_rect].
  repeat (rewrite crc_unshift_shift by (first [exact Hv | apply crc_shift_range])).
  reflexivity.
Qed.

Lemma crc_update_inj (x y : Z) (b b' : byte) :
  0 <= x < 256 -> 0 <= y < 256 ->
  crc_update x b = crc_update y b' -> Z.lxor x (byte_to_Z b) = Z.lxor y (byte_to_Z b').
Proof.
  intros Hx Hy H. unfold crc_update in H.
  apply (f_equal CrcInverse.crc_unwind) in H.
  rewrite !crc_unwind_iter in H
    by (apply (lxor_below 8); [lia | assumption | apply byte_to_Z_range]).
  exact H.
Qed.

Lemma crc_fold_inj (post : bytes) (x y : Z) :
  0 <= x < 256 -> 0 <= y < 256 ->
  fold_left crc_update post x = fold_left crc_update post y -> x = y.
Proof.
  revert x y. induction post as [|b r IH]; intros x y Hx Hy H; [exact H|].
  cbn [fold_left] in H. apply IH in H; [|apply crc_update_range..].
  apply crc_update_inj in H; [|assumption..]. exact (lxor_cancel_r _ _ _ H).
Qed.

(** X4. The V2 CRC tells any two messages apart that differ in exactly
    one byte. *)
Theorem crc_v2_detects_changed_byte (pre post : bytes) (b b' : byte) :
  b <> b' ->
  _calculate_crc_v2 (pre ++ b :: post) <> _calculate_crc_v2 (pre ++ b' :: post).
Proof.
  intros Hne H. unfold _calculate_crc_v2 in H.
  rewrite !fold_left_app in H. cbn [fold_left] in H.
  pose proof (crc_v2_range pre) as Hk. unfold _calculate_crc_v2 in Hk.
  apply crc_fold_inj in H; [|apply crc_update_range..].
  apply crc_update_inj in H; [|assumption..].
  apply Hne, byte_to_Z_inj, (lxor_cancel_l _ _ _ H).
Qed.

Lemma crc_v2_detects_changed_byte_witness :
  _calculate_crc_v2 ["001"; "002"; "003"]%byte <> _calculate_crc_v2 ["001"; "018"; "003"]%byte.
Proof.
  apply (crc_v2_detects_changed_byte ["001"%byte] ["003"%byte] "002"%byte "018"%byte).
  discriminate.
Defined.

Lemma read_events_all (bs : bytes) (n : nat) :
  (length bs <= n)%nat -> read_events n (RxByte <$> bs) = (Return bs, []).
Proof.
  revert n. induction bs as [|b r IH]; intros n Hn.
  - destruct n; reflexivity.
  - destruct n as [|k]; [cbn in Hn; lia|].
    cbn [fmap list_fmap read_events].
    change (list_fmap byte rx_event RxByte r) with (RxByte <$> r).
    rewrite IH by (cbn in Hn; lia). reflexivity.
Qed.

Lemma ser_read_all (s : Serial) (bs : bytes) (n : Z) :
  rx s = RxByte <$> bs -> len bs <= n ->
  ser_read n s = (Return bs, mkSerial [] (tx s) (tx_fault s)).
Proof.
  intros Hrx Hn. unfold ser_read. rewrite Hrx, read_events_all by (unfold len in Hn; lia).
  reflexivity.
Qed.

(** What [_read_v1_response] makes of a frame the stream ends inside. *)
Lemma read_v1_cut_short (s : Serial) (body : bytes) :
  rx s = RxByte <$> body ->
  Shapes.v1_cut_short body ->
  _read_v1_response s = (Return (None, None), mkSerial [] (tx s) (tx_fault s)).
Proof.
  intros Hrx Hcut. unfold _read_v1_response, try_except.
  destruct body as [|size [|code tail]].
  - erewrite bind_return by (apply (ser_read_all s [] 1 Hrx); by vm_compute).
    reflexivity.
  - erewrite bind_return
      by (apply (ser_read_bytes s [size] [] 1); [by rewrite Hrx | reflexivity]).
    cbn [lift ord bind].
    erewrite bind_return by (apply (ser_read_all _ [] 1); [reflexivity | by vm_compute]).
    reflexivity.
  - cbn [Shapes.v1_cut_short] in Hcut.
    erewrite bind_return
      by (apply (ser_read_bytes s [size] (RxByte <$> code :: tail) 1);
          [by rewrite Hrx | reflexivity]).
    cbn [lift ord bind].
    erewrite bind_return
      by (apply (ser_read_bytes _ [code] (RxByte <$> tail) 1); reflexivity).
    cbn [lift ord bind].
    erewrite bind_return by (apply (ser_read_all _ tail); [reflexivity | exact Hcut]).
    erewrite bind_return by (apply (ser_read_all _ [] 1); [reflexivity | by vm_compute]).
    reflexivity.
Qed.

(** X5. A V1 response that the stream ends inside is dropped: after the
    header, with the size, the code, the payload or the checksum missing,
    [read_response] returns [(None, None)] and raises nothing. *)
Theorem read_response_drops_cut_short_v1 (c : ConnectionManager) (s : Serial)
    (t : option nat) (noise body : bytes) :
  ser c = Some s ->
  Forall (fun b => b <> "$"%byte) noise ->
  (length noise < deadline t c)%nat ->
  rx s = RxByte <$> noise ++ MSP_V1_RESPONSE ++ body ->
  Shapes.v1_cut_short body ->
  read_response t c
  = (Return (None, None), set_ser c (mkSerial [] (tx s) (tx_fault s))).
Proof.
  intros Hs Hn Hd Hrx Hcut.
  apply (read_response_scan c s _ t _ Hs).
  destruct (read_response_frame c s t noise "M" ">" body [] Hs Hn Hd) as [polls ->].
  { by rewrite Hrx, app_nil_r. }
  erewrite scan_header_found by reflexivity.
  cbn zeta. rewrite bool_decide_eq_true_2 by reflexivity.
  rewrite (read_v1_cut_short _ body); [reflexivity | | exact Hcut].
  cbn [rx]. by rewrite app_nil_r.
Qed.

Lemma read_response_drops_cut_short_v1_witness :
  read_response None
    (Fixtures.conn_reading (RxByte <$> ["a"; "$"; "M"; ">"; "003"; "v"; "001"; "002"]%byte))
  = (Return (None, None), Fixtures.conn_reading []).
Proof.
  apply (read_response_drops_cut_short_v1
           (Fixtures.conn_reading
              (RxByte <$> ["a"; "$"; "M"; ">"; "003"; "v"; "001"; "002"]%byte))
           _ None ["a"%byte] ["003"; "v"; "001"; "002"]%byte eq_refl).
  - repeat constructor; discriminate.
  - cbn; lia.
  - reflexivity.
  - by vm_compute.
Defined.

(** X6. A port error while [read_response] looks for a header comes out
    as an [MSPException], not as the port's own exception, and the bytes
    after the point of failure stay unread. *)
Theorem read_response_wraps_port_error (c : ConnectionManager) (s : Serial)
    (t : option nat) (noise : bytes) (rest : list rx_event) :
  ser c = Some s ->
  Forall (fun b => b <> "$"%byte) noise ->
  (length noise < deadline t c)%nat ->
  rx s = (RxByte <$> noise) ++ RxFault :: rest ->
  read_response t c
  = (Raise (MSPException ReadFailed), set_ser c (mkSerial rest (tx s) (tx_fault s))).
Proof.
  intros Hs Hn Hd Hrx. unfold read_response, on_ser, try_except. rewrite Hs.
  replace (deadline t c) with (length noise + S (deadline t c - length noise - 1))%nat
    by lia.
  rewrite (scan_header_noise noise _ s (RxFault :: rest) Hn Hrx).
  cbn [scan_header]. unfold bind at 1, ser_read at 1. change (Z.to_nat 1) with 1%nat.
  cbn [rx read_events tx tx_fault is_serial_exception raise]. reflexivity.
Qed.

Lemma read_response_wraps_port_error_witness :
  read_response None (Fixtures.conn_reading [RxByte "a"; RxFault; RxByte "$"])
  = (Raise (MSPException ReadFailed), Fixtures.conn_reading [RxByte "$"]).
Proof.
  apply (read_response_wraps_port_error
           (Fixtures.conn_reading [RxByte "a"; RxFault; RxByte "$"]) _ None
           ["a"%byte] [RxByte "$"] eq_refl).
  - repeat constructor; discriminate.
  - cbn; lia.
  - reflexivity.
Defined.

Lemma encode_v2_errors (code : Z) (data : bytes) (e : exn) :
  len data <= 65535 -> encode_v2 code data = Raise e ->
  e <> MSPException V2PayloadTooLarge.
Proof.
  intros Hl. unfold encode_v2.
  destruct (Z.gtb_spec (len data) 65535) as [?|_]; [lia|].
  unfold pack_BHH, pack_B, pack_H, pack_field.
  destruct ((0 <=? 0) && (0 <=? 255)); [|cbn; congruence].
  destruct ((0 <=? code) && (code <=? 65535)); [|cbn; congruence].
  destruct ((0 <=? len data) && (len data <=? 65535)); [|cbn; congruence].
  cbn [pack_cat].
  match goal with |- context [bytes_of [?k]] => generalize k end. intros k.
  cbn [bytes_of]. destruct ((0 <=? k) && (k <? 256)); cbn [pack_cat]; congruence.
Qed.

Lemma encode_v1_errors (code : Z) (data : bytes) (e : exn) :
  encode_v1 code data = Raise e -> e <> MSPException V2PayloadTooLarge.
Proof.
  unfold encode_v1. destruct (len data >? 255); [congruence|].
  generalize (_calculate_checksum_v1 (len data) code data) as k. intros k.
  cbn [bytes_of pack_cat].
  destruct ((0 <=? len data) && (len data <? 256)); [|cbn [pack_cat]; congruence].
  destruct ((0 <=? code) && (code <? 256)); [|cbn [pack_cat]; congruence].
  destruct ((0 <=? k) && (k <? 256)); cbn [pack_cat]; congruence.
Qed.

Lemma write_packet_errors (packet : bytes) (c c' : ConnectionManager) (s : Serial) (e : exn) :
  on_ser (write_packet packet) c s = (Raise e, c') -> e = MSPException SendFailed.
Proof.
  unfold on_ser, write_packet, try_except, ser_write.
  destruct (tx_fault s); cbn; congruence.
Qed.

(** X7. [send_msp] never reports the V2 payload limit: it chooses V2
    only for a payload that fits it.  A payload of more than 65535 bytes
    goes to the V1 encoder, even on a link negotiated as V2, and is
    refused there with the V1 error, nothing being written. *)
Theorem send_msp_oversize_reports_v1 (code : Z) (data : bytes) (force_v1 : bool)
    (c : ConnectionManager) :
  (forall e c', send_msp code data force_v1 c = (Raise e, c') ->
                e <> MSPException V2PayloadTooLarge)
  /\ (forall s, ser c = Some s -> 65535 < len data ->
      send_msp code data force_v1 c = (Raise (MSPException V1PayloadTooLarge), c)).
Proof.
  split.
  - intros e c'. unfold send_msp.
    destruct (msp_v2_supported c && negb force_v1) ; cbn [andb].
    + destruct (Z.leb_spec (len data) 65535) as [Hl|Hl].
      * unfold send_msp_v2. destruct (ser c) as [s|]; [|congruence].
        destruct (encode_v2 code data) as [p|e0] eqn:Henc.
        -- intros H. apply write_packet_errors in H. congruence.
        -- intros [= <- _]. exact (encode_v2_errors _ _ _ Hl Henc).
      * unfold send_msp_v1. destruct (ser c) as [s|]; [|congruence].
        destruct (encode_v1 code data) as [p|e0] eqn:Henc.
        -- intros H. apply write_packet_errors in H. congruence.
        -- intros [= <- _]. exact (encode_v1_errors _ _ _ Henc).
    + unfold send_msp_v1. destruct (ser c) as [s|]; [|congruence].
      destruct (encode_v1 code data) as [p|e0] eqn:Henc.
      * intros H. apply write_packet_errors in H. congruence.
      * intros [= <- _]. exact (encode_v1_errors _ _ _ Henc).
  - intros s Hs Hl. unfold send_msp.
    destruct (Z.leb_spec (len data) 65535) as [?|_]; [lia|].
    rewrite andb_false_r. unfold send_msp_v1.
    rewrite Hs, encode_v1_too_large by lia. reflexivity.
Qed.

Lemma send_msp_oversize_reports_v1_witness :
  send_msp 118 (replicate 65536 "000"%byte) false (mkConn (Some Fixtures.quiet_port) 5 true INAV)
  = (Raise (MSPException V1PayloadTooLarge), mkConn (Some Fixtures.quiet_port) 5 true INAV).
Proof.
  destruct (send_msp_oversize_reports_v1 118 (replicate 65536 "000"%byte) false
              (mkConn (Some Fixtures.quiet_port) 5 true INAV)) as [_ H].
  apply (H Fixtures.quiet_port eq_refl). by vm_compute.
Defined.

(** X8. When the port refuses the write, [send_msp] raises the
    send-failed [MSPException] and the connection, with its log of
    written packets, is as before. *)
Theorem send_msp_write_failure (code : Z) (data : bytes) (force_v1 : bool)
    (c : ConnectionManager) (s : Serial) :
  ser c = Some s -> tx_fault s = true ->
  0 <= code <= 255 -> len data <= 255 ->
  send_msp code data force_v1 c = (Raise (MSPException SendFailed), c).
Proof.
  intros Hs Hf Hc Hl. unfold send_msp.
  destruct (msp_v2_supported c && negb force_v1 && (len data <=? 65535));
    [unfold send_msp_v2; rewrite Hs, encode_v2_in_range by lia
    |unfold send_msp_v1; rewrite Hs, encode_v1_in_range by lia];
    unfold on_ser, write_packet, try_except, ser_write; rewrite Hf;
    cbn [is_serial_exception raise]; by rewrite (set_ser_same c s Hs).
Qed.

Lemma send_msp_write_failure_witness :
  send_msp 118 ["003"%byte] false (mkConn (Some (mkSerial [] [] true)) 5 false INAV)
  = (Raise (MSPException SendFailed), mkConn (Some (mkSerial [] [] true)) 5 false INAV).
Proof.
  apply (send_msp_write_failure 118 ["003"%byte] false
           (mkConn (Some (mkSerial [] [] true)) 5 false INAV) (mkSerial [] [] true)
           eq_refl eq_refl).
  - lia.
  - by vm_compute.
Defined.

Lemma send_probe (c : ConnectionManager) (s : Serial) :
  ser c = Some s -> tx_fault s = false ->
  send_msp_v2 1 [] c
  = (Return tt, set_ser c (mkSerial (rx s) (tx s ++ [Shapes.probe_packet]) false)).
Proof.
  intros Hs Hf. unfold send_msp_v2. rewrite Hs.
  change (encode_v2 1 []) with (Return (A:=bytes) Shapes.probe_packet).
  apply write_packet_ok, Hf.
Qed.

(** X9. Negotiation does not look at the framing of the answer to its
    V2 probe: when the device answers with a valid V1 frame, of any code,
    [_detect_msp_version] still marks the link as V2.  What it wrote is
    the probe packet alone. *)
Theorem detect_takes_v1_answer_for_v2 (c : ConnectionManager) (s : Serial)
    (size code chk : byte) (data : bytes) (rest : list rx_event) :
  ser c = Some s -> tx_fault s = false ->
  (0 < timeout c)%nat ->
  rx s = (RxByte <$> MSP_V1_RESPONSE ++ [size; code] ++ data ++ [chk]) ++ rest ->
  len data = byte_to_Z size ->
  byte_to_Z chk = _calculate_checksum_v1 (byte_to_Z size) (byte_to_Z code) data ->
  Negotiation._detect_msp_version c
  = mkConn (Some (mkSerial rest (tx s ++ [Shapes.probe_packet]) false))
      (timeout c) true (fc_type c).
Proof.
  intros Hs Hf Ht Hrx Hlen Hchk. unfold Negotiation._detect_msp_version.
  rewrite (send_probe c s Hs Hf).
  rewrite (read_response_v1_valid
             (set_ser c (mkSerial (rx s) (tx s ++ [Shapes.probe_packet]) false))
             (mkSerial (rx s) (tx s ++ [Shapes.probe_packet]) false)
             None [] size code chk data rest eq_refl (List.Forall_nil _) Ht Hrx Hlen Hchk).
  reflexivity.
Qed.

Lemma detect_takes_v1_answer_for_v2_witness :
  msp_v2_supported
    (Negotiation._detect_msp_version
       (Fixtures.conn_reading (RxByte <$> ["$"; "M"; ">"; "001"; "v"; "003"; "t"]%byte)))
  = true.
Proof.
  rewrite (detect_takes_v1_answer_for_v2
             (Fixtures.conn_reading (RxByte <$> ["$"; "M"; ">"; "001"; "v"; "003"; "t"]%byte))
             _ "001"%byte "v"%byte "t"%byte ["003"%byte] [] eq_refl eq_refl).
  - reflexivity.
  - cbn; lia.
  - reflexivity.
  - reflexivity.
  - by vm_compute.
Defined.

(** X10. When nothing that starts a frame arrives before the deadline,
    negotiation leaves the version flag as it was, raises nothing, and
    has written the probe packet. *)
Theorem detect_keeps_flag_when_unanswered (c : ConnectionManager) (s : Serial) :
  ser c = Some s -> tx_fault s = false ->
  Forall quiet (take (timeout c) (rx s)) ->
  Negotiation._detect_msp_version c
  = mkConn (Some (mkSerial (drop (timeout c) (rx s)) (tx s ++ [Shapes.probe_packet]) false))
      (timeout c) (msp_v2_supported c) (fc_type c).
Proof.
  intros Hs Hf Hq. unfold Negotiation._detect_msp_version.
  rewrite (send_probe c s Hs Hf).
  rewrite (read_response_scan
             (set_ser c (mkSerial (rx s) (tx s ++ [Shapes.probe_packet]) false))
             (mkSerial (rx s) (tx s ++ [Shapes.probe_packet]) false)
             (mkSerial (drop (timeout c) (rx s)) (tx s ++ [Shapes.probe_packet]) false)
             None (None, None) eq_refl).
  - reflexivity.
  - apply scan_header_quiet. exact Hq.
Qed.

Lemma detect_keeps_flag_when_unanswered_witness :
  Negotiation._detect_msp_version Fixtures.quiet_conn
  = mkConn (Some (mkSerial [] [Shapes.probe_packet] false)) 5 false INAV.
Proof.
  apply (detect_keeps_flag_when_unanswered Fixtures.quiet_conn Fixtures.quiet_port
           eq_refl eq_refl).
  constructor.
Defined.

End TransportExtras.

(** * Further properties of waypoint transfer *)

Section WaypointExtras.
Import Core Planning.

Lemma le_value_le_bytes (n : nat) (z : Z) : le_value (le_bytes n z) = z mod 256 ^ Z.of_nat n.
Proof.
  revert z. induction n as [|k IH]; intros z.
  - cbn. by rewrite Z.mod_1_r.
  - cbn [le_bytes le_value]. rewrite IH, byte_to_of_Z.
    rewrite Nat2Z.inj_succ, Z.pow_succ_r by lia.
    rewrite Z.rem_mul_r by lia. reflexivity.
Qed.

Lemma unpack_unsigned_1 (z : Z) : 0 <= z <= 255 -> unpack_unsigned (le_bytes 1 z) = z.
Proof.
  intros Hz. unfold unpack_unsigned. rewrite le_value_le_bytes.
  change (256 ^ Z.of_nat 1) with 256. apply Z.mod_small. lia.
Qed.

Lemma mod_two_complement (z m : Z) :
  0 < m -> - m <= z < m ->
  (if z mod (2 * m) <? m then z mod (2 * m) else z mod (2 * m) - 2 * m) = z.
Proof.
  intros Hm Hz. destruct (Z.neg_nonneg_cases z) as [Hneg|Hpos].
  - assert (E : z mod (2 * m) = z + 2 * m)
      by (symmetry; apply (Z.mod_unique z (2 * m) (-1)); lia).
    rewrite E. destruct (Z.ltb_spec (z + 2 * m) m); lia.
  - rewrite Z.mod_small by lia. destruct (Z.ltb_spec z m); lia.
Qed.

Lemma unpack_signed_2 (z : Z) :
  -32768 <= z <= 32767 -> unpack_signed (le_bytes 2 z) = z.
Proof.
  intros Hz. unfold unpack_signed. rewrite le_value_le_bytes.
  change (256 ^ Z.of_nat 2) with (2 * 32768).
  change (2 ^ (8 * len (le_bytes 2 z) - 1)) with 32768.
  change (2 ^ (8 * len (le_bytes 2 z))) with (2 * 32768).
  apply mod_two_complement; lia.
Qed.

Lemma unpack_signed_4 (z : Z) :
  -2147483648 <= z <= 2147483647 -> unpack_signed (le_bytes 4 z) = z.
Proof.
  intros Hz. unfold unpack_signed. rewrite le_value_le_bytes.
  change (256 ^ Z.of_nat 4) with (2 * 2147483648).
  change (2 ^ (8 * len (le_bytes 4 z) - 1)) with 2147483648.
  change (2 ^ (8 * len (le_bytes 4 z))) with (2 * 2147483648).
  apply mod_two_complement; lia.
Qed.

Lemma pack_field_inv (lo hi : Z) (n : nat) (z : Z) (b : bytes) :
  pack_field lo hi n z = Return b -> lo <= z <= hi /\ b = le_bytes n z.
Proof.
  unfold pack_field. destruct (Z.leb_spec lo z), (Z.leb_spec z hi); cbn; try discriminate.
  intros [= <-]. split; [lia | reflexivity].
Qed.

Lemma pack_cat_inv (a b : outcome bytes) (r : bytes) :
  pack_cat a b = Return r -> exists x y, a = Return x /\ b = Return y /\ r = x ++ y.
Proof.
  destruct a as [x|]; [|discriminate]. destruct b as [y|]; [|discriminate].
  intros [= <-]. eauto.
Qed.

(** Unpacking what [pack_waypoint] packed gives the fields back. *)
Lemma unpack_packed_waypoint (i : Z) (w : Waypoint) (data : bytes) :
  pack_waypoint i w = Return data ->
  exists ilat ilon ialt,
    py_int (lat w * 1e7) = Return ilat
    /\ py_int (lon w * 1e7) = Return ilon
    /\ py_int (alt w * 100) = Return ialt
    /\ len data = 21
    /\ unpack_waypoint data
       = Return (i, action w, ilat, ilon, ialt, param1 w, param2 w, param3 w, flag w).
Proof.
  unfold pack_waypoint.
  destruct (py_int (lat w * 1e7)) as [ilat|]; [|discriminate].
  destruct (py_int (lon w * 1e7)) as [ilon|]; [|discriminate].
  destruct (py_int (alt w * 100)) as [ialt|]; [|discriminate].
  cbn [obind]. intros H. exists ilat, ilon, ialt.
  repeat (apply pack_cat_inv in H as (? & ? & ?%pack_field_inv & H & ->)).
  apply pack_field_inv in H.
  destruct_and!. subst.
  split; [reflexivity|]. split; [reflexivity|]. split; [reflexivity|].
  split; [reflexivity|].
  unfold unpack_waypoint. change (len _ =? 21) with true. cbv iota.
  cbn [le_bytes app take drop].
  change [byte_of_Z i] with (le_bytes 1 i).
  change [byte_of_Z (action w)] with (le_bytes 1 (action w)).
  change [byte_of_Z (flag w)] with (le_bytes 1 (flag w)).
  change [byte_of_Z ilat; byte_of_Z (ilat / 256); byte_of_Z (ilat / 256 / 256);
          byte_of_Z (ilat / 256 / 256 / 256)] with (le_bytes 4 ilat).
  change [byte_of_Z ilon; byte_of_Z (ilon / 256); byte_of_Z (ilon / 256 / 256);
          byte_of_Z (ilon / 256 / 256 / 256)] with (le_bytes 4 ilon).
  change [byte_of_Z ialt; byte_of_Z (ialt / 256); byte_of_Z (ialt / 256 / 256);
          byte_of_Z (ialt / 256 / 256 / 256)] with (le_bytes 4 ialt).
  change [byte_of_Z (param1 w); byte_of_Z (param1 w / 256)] with (le_bytes 2 (param1 w)).
  change [byte_of_Z (param2 w); byte_of_Z (param2 w / 256)] with (le_bytes 2 (param2 w)).
  change [byte_of_Z (param3 w); byte_of_Z (param3 w / 256)] with (le_bytes 2 (param3 w)).
  rewrite !unpack_unsigned_1, !unpack_signed_2, !unpack_signed_4 by lia.
  reflexivity.
Qed.

(** [get_waypoint] on a slot in range: it sends the request, reads one
    response and decodes it. *)
Lemma read_waypoint_decodes (i : Z) (c c1 c2 : ConnectionManager) (r : response) :
  0 <= i < MAX_WAYPOINTS ->
  send_msp MSPCommands.MSP_WP (le_bytes 1 i) false c = (Return tt, c1) ->
  read_response None c1 = (Return r, c2) ->
  read_waypoint i c
  = (match decode_waypoint i r with Return o => o | Raise _ => None end, c2).
Proof.
  intros Hi Hsend Hread. unfold read_waypoint.
  rewrite (proj2 (slot_in_range i) Hi). unfold run_or, bind, lift.
  rewrite (pack_B_slot i Hi), Hsend, Hread.
  destruct (decode_waypoint i r); reflexivity.
Qed.

(** X11. Wire round trip of a waypoint: when the response to the read
    of slot [i] carries the payload that [set_waypoint] packs for [w] and
    slot [i], [get_waypoint] returns [w] with its action, its three
    parameters and its flag unchanged, and with each coordinate replaced
    by its fixed-point value read back into a float. *)
Theorem get_waypoint_returns_packed_waypoint (self : Mission) (i : Z) (w : Waypoint)
    (data : bytes) (c1 c2 : ConnectionManager) :
  0 <= i < MAX_WAYPOINTS ->
  pack_waypoint i w = Return data ->
  send_msp MSPCommands.MSP_WP (le_bytes 1 i) false (conn self) = (Return tt, c1) ->
  read_response None c1 = (Return (Some MSPCommands.MSP_WP, Some data), c2) ->
  exists ilat ilon ialt,
    py_int (lat w * 1e7) = Return ilat
    /\ py_int (lon w * 1e7) = Return ilon
    /\ py_int (alt w * 100) = Return ialt
    /\ get_waypoint i self
       = (Some (Builders.wire_image w ilat ilon ialt), set_conn self c2).
Proof.
  intros Hi Hpack Hsend Hread.
  destruct (unpack_packed_waypoint i w data Hpack)
    as (ilat & ilon & ialt & H1 & H2 & H3 & Hlen & Hun).
  exists ilat, ilon, ialt. repeat (split; [assumption|]).
  apply get_waypoint_eq. rewrite (read_waypoint_decodes i _ c1 c2 _ Hi Hsend Hread).
  unfold decode_waypoint. rewrite Z.eqb_refl, Hlen. cbn [negb andb Z.eqb Z.geb Z.compare].
  rewrite firstn_all2 by (unfold len in Hlen; lia).
  rewrite Hun. cbn [obind]. rewrite Z.eqb_refl. reflexivity.
Qed.

Lemma get_waypoint_returns_packed_waypoint_witness :
  exists ilat ilon ialt,
    py_int (lat Fixtures.sample_wp * 1e7) = Return ilat
    /\ py_int (lon Fixtures.sample_wp * 1e7) = Return ilon
    /\ py_int (alt Fixtures.sample_wp * 100) = Return ialt
    /\ get_waypoint 0 Fixtures.fading_mission
       = (Some (Builders.wire_image Fixtures.sample_wp ilat ilon ialt),
          set_conn Fixtures.fading_mission Fixtures.fading_after_first).
Proof.
  apply (get_waypoint_returns_packed_waypoint Fixtures.fading_mission 0
           Fixtures.sample_wp Fixtures.silent_payload Fixtures.fading_after_request
           Fixtures.fading_after_first).
  - unfold MAX_WAYPOINTS. lia.
  - by vm_compute.
  - by vm_compute.
  - by vm_compute.
Defined.

(** X12. [get_waypoint] returns [None] for a response that is not the
    answer to its request: one with another command code, one in the
    extended format (21 bytes or more) whose first byte names another
    slot, or one shorter than 12 bytes. *)
Theorem get_waypoint_refuses_foreign_response (self : Mission) (i code : Z)
    (data : bytes) (c1 c2 : ConnectionManager) :
  0 <= i < MAX_WAYPOINTS ->
  send_msp MSPCommands.MSP_WP (le_bytes 1 i) false (conn self) = (Return tt, c1) ->
  read_response None c1 = (Return (Some code, Some data), c2) ->
  code <> MSPCommands.MSP_WP
  \/ (21 <= len data /\ exists b tail, data = b :: tail /\ byte_to_Z b <> i)
  \/ len data < 12 ->
  get_waypoint i self = (None, set_conn self c2).
Proof.
  intros Hi Hsend Hread Hcase.
  apply get_waypoint_eq. rewrite (read_waypoint_decodes i _ c1 c2 _ Hi Hsend Hread).
  unfold decode_waypoint.
  destruct Hcase as [Hcode|[(Hlen & b & tail & -> & Hb)|Hlen]].
  - apply Z.eqb_neq in Hcode. rewrite Hcode. reflexivity.
  - destruct (code =? MSPCommands.MSP_WP); [|reflexivity].
    destruct (Z.eqb_spec (len (b :: tail)) 0) as [?|_]; [lia|].
    destruct (Z.geb_spec (len (b :: tail)) 21) as [_|?]; [|lia].
    cbn [negb andb]. unfold unpack_waypoint.
    assert (E : len (take 21 (b :: tail)) = 21)
      by (unfold len in *; rewrite length_take; lia).
    rewrite E. cbn [Z.eqb Pos.eqb obind take].
    unfold unpack_unsigned at 1. cbn [le_value].
    rewrite Z.mul_0_r, Z.add_0_r. apply Z.eqb_neq in Hb. rewrite Hb. reflexivity.
  - destruct (code =? MSPCommands.MSP_WP); [|reflexivity].
    destruct (negb (len data =? 0)); [|reflexivity]. cbn [andb].
    destruct (Z.geb_spec (len data) 21) as [?|_]; [lia|].
    destruct (Z.geb_spec (len data) 12) as [?|_]; [lia|]. reflexivity.
Qed.

Lemma get_waypoint_refuses_foreign_response_witness :
  get_waypoint 1 Fixtures.fading_mission
  = (None, set_conn Fixtures.fading_mission Fixtures.foreign_after_response).
Proof.
  apply (get_waypoint_refuses_foreign_response Fixtures.fading_mission 1
           MSPCommands.MSP_WP Fixtures.silent_payload
           Fixtures.foreign_after_request Fixtures.foreign_after_response).
  - unfold MAX_WAYPOINTS. lia.
  - by vm_compute.
  - by vm_compute.
  - right. left. split; [by vm_compute|].
    eexists _, _. split; [reflexivity|]. by vm_compute.
Defined.

(** X13. A response of 12 to 20 bytes is read in the basic format, which
    carries no slot number: [get_waypoint] accepts it for whatever slot
    was asked and returns the position held in its first twelve bytes
    with action 1 and the parameters and the flag at 0. *)
Theorem get_waypoint_basic_format (self : Mission) (i : Z) (data : bytes)
    (c1 c2 : ConnectionManager) :
  0 <= i < MAX_WAYPOINTS ->
  send_msp MSPCommands.MSP_WP (le_bytes 1 i) false (conn self) = (Return tt, c1) ->
  read_response None c1 = (Return (Some MSPCommands.MSP_WP, Some data), c2) ->
  12 <= len data < 21 ->
  get_waypoint i self
  = (Some (mkWaypoint (py_float (unpack_signed (take 4 data)) / 1e7)
             (py_float (unpack_signed (take 4 (drop 4 data))) / 1e7)
             (py_float (unpack_signed (take 4 (drop 8 data))) / 100)
             1 0 0 0 0),
     set_conn self c2).
Proof.
  intros Hi Hsend Hread Hlen.
  apply get_waypoint_eq. rewrite (read_waypoint_decodes i _ c1 c2 _ Hi Hsend Hread).
  unfold decode_waypoint. rewrite Z.eqb_refl.
  destruct (Z.eqb_spec (len data) 0) as [?|_]; [lia|].
  destruct (Z.geb_spec (len data) 21) as [?|_]; [lia|].
  destruct (Z.geb_spec (len data) 12) as [_|?]; [|lia].
  cbn [negb andb]. unfold unpack_iii.
  assert (E : len (take 12 data) = 12) by (unfold len in *; rewrite length_take; lia).
  rewrite E. cbn [Z.eqb Pos.eqb obind].
  rewrite !take_take, !take_drop_commute, !take_take. reflexivity.
Qed.

Lemma get_waypoint_basic_format_witness :
  get_waypoint 7 Fixtures.basic_mission
  = (Some (mkWaypoint
             (py_float (unpack_signed (take 4 Fixtures.basic_payload)) / 1e7)
             (py_float (unpack_signed (take 4 (drop 4 Fixtures.basic_payload))) / 1e7)
             (py_float (unpack_signed (take 4 (drop 8 Fixtures.basic_payload))) / 100)
             1 0 0 0 0),
     set_conn Fixtures.basic_mission Fixtures.basic_after_response).
Proof.
  apply (get_waypoint_basic_format Fixtures.basic_mission 7 Fixtures.basic_payload
           Fixtures.basic_after_request Fixtures.basic_after_response).
  - unfold MAX_WAYPOINTS. lia.
  - by vm_compute.
  - by vm_compute.
  - by vm_compute.
Defined.

End WaypointExtras.

(** * Further properties of upload and download *)

Section SyncExtras.
Import Core Planning.

Lemma send_msp_unhealthy (code : Z) (data : bytes) (c : ConnectionManager) :
  healthy c = false -> exists e, send_msp code data false c = (Raise e, c).
Proof.
  intros Hh.
  destruct (send_msp_cases code data c) as [(s & p & Hs & Hf & _ & _)|H]; [|exact H].
  unfold healthy in Hh. rewrite Hs, Hf in Hh. discriminate.
Qed.

Lemma read_waypoint_unhealthy (i : Z) (c : ConnectionManager) :
  healthy c = false -> read_waypoint i c = (None, c).
Proof.
  intros Hh. unfold read_waypoint.
  destruct ((i <? 0) || (i >=? MAX_WAYPOINTS)); [reflexivity|].
  unfold run_or, bind, lift. destruct (pack_B i) as [data|e]; [|reflexivity].
  destruct (send_msp_unhealthy MSPCommands.MSP_WP data c Hh) as [e ->]. reflexivity.
Qed.

Lemma write_waypoint_unhealthy (i : Z) (w : Waypoint) (validate : bool)
    (c : ConnectionManager) :
  healthy c = false -> write_waypoint i w validate c = (false, c).
Proof.
  intros Hh. unfold write_waypoint.
  destruct ((i <? 0) || (i >=? MAX_WAYPOINTS)); [reflexivity|].
  destruct (validate && negb (validate_coordinates (lat w) (lon w) (alt w)));
    [reflexivity|].
  unfold run_or, bind, lift, ret. destruct (pack_waypoint i w) as [data|e]; [|reflexivity].
  destruct (send_msp_unhealthy MSPCommands.MSP_SET_WP data c Hh) as [e ->]. reflexivity.
Qed.

Lemma set_waypoint_unhealthy (i : Z) (w : Waypoint) (validate : bool) (self : Mission) :
  healthy (conn self) = false -> set_waypoint i w validate self = (false, self).
Proof.
  intros Hh. unfold set_waypoint, on_conn.
  rewrite (write_waypoint_unhealthy i w validate _ Hh). by rewrite set_conn_conn.
Qed.

Lemma upload_loop_unhealthy (ws : list Waypoint) (i count : Z) (self : Mission) :
  healthy (conn self) = false ->
  upload_loop false i ws count self = (Some count, self).
Proof.
  intros Hh. revert i. induction ws as [|w rest IH]; intros i; [reflexivity|].
  cbn [upload_loop]. rewrite (set_waypoint_unhealthy _ _ _ _ Hh). apply IH.
Qed.

Lemma clear_loop_unhealthy (ids : list Z) (self : Mission) :
  healthy (conn self) = false -> clear_loop ids self = self.
Proof.
  intros Hh. induction ids as [|i rest IH]; [reflexivity|].
  cbn [clear_loop]. rewrite (set_waypoint_unhealthy _ _ _ _ Hh). exact IH.
Qed.

(** X14. Over a connection that is closed, or whose port refuses
    writes, [upload_mission] returns [False] and changes nothing: no
    packet is written and the mission is not marked loaded. *)
Theorem upload_on_dead_link (validate : bool) (self : Mission) :
  healthy (conn self) = false ->
  upload_mission validate self = (false, self).
Proof.
  intros Hh. unfold upload_mission.
  destruct (waypoints self) as [|w rest] eqn:Hws; [reflexivity|].
  destruct validate.
  - cbn [upload_loop]. rewrite (set_waypoint_unhealthy _ _ _ _ Hh). reflexivity.
  - rewrite (upload_loop_unhealthy _ _ _ _ Hh).
    rewrite (clear_loop_unhealthy _ _ Hh).
    destruct (Z.eqb_spec 0 (len (w :: rest))) as [E|_]; [|reflexivity].
    unfold len in E. cbn [length] in E. lia.
Qed.

Lemma upload_on_dead_link_witness :
  upload_mission true Fixtures.closed_mission = (false, Fixtures.closed_mission).
Proof. apply (upload_on_dead_link true Fixtures.closed_mission). reflexivity. Defined.

(** X15. Over a connection that is closed, or whose port refuses
    writes, [download_mission] still returns [True]: it empties the
    mission and marks it loaded. *)
Theorem download_on_dead_link (self : Mission) :
  healthy (conn self) = false ->
  download_mission self = (true, mkMission (conn self) (fc_type self) [] true).
Proof.
  intros Hh. unfold download_mission, py_range, MAX_WAYPOINTS.
  rewrite seqZ_cons by lia. cbn [download_loop].
  unfold get_waypoint, on_conn. cbn [conn set_waypoints].
  rewrite (read_waypoint_unhealthy 0 _ Hh). reflexivity.
Qed.

Lemma download_on_dead_link_witness :
  download_mission Fixtures.closed_mission
  = (true, mkMission Fixtures.closed_conn INAV [] true).
Proof. apply (download_on_dead_link Fixtures.closed_mission). reflexivity. Defined.

Lemma clear_loop_frame (ids : list Z) (self : Mission) :
  clear_loop ids self = set_conn self (conn (clear_loop ids self)).
Proof.
  revert self. induction ids as [|i rest IH]; intros self.
  - cbn. by rewrite set_conn_conn.
  - cbn [clear_loop]. destruct (set_waypoint i empty_wp false self) as [ok self1] eqn:Hset.
    apply on_conn_inv in Hset as [_ ->]. cbn [snd]. rewrite IH at 1. reflexivity.
Qed.

(** X16. A mission of more than 60 waypoints cannot be uploaded:
    whatever the device answers, with or without verification,
    [upload_mission] returns [False] and leaves the waypoint list and the
    loaded flag as they were. *)
Theorem upload_over_capacity_fails (validate : bool) (self : Mission) :
  MAX_WAYPOINTS < len (waypoints self) ->
  fst (upload_mission validate self) = false
  /\ waypoints (snd (upload_mission validate self)) = waypoints self
  /\ _mission_loaded (snd (upload_mission validate self)) = _mission_loaded self.
Proof.
  intros Hbig.
  assert (Hne : waypoints self <> [])
    by (intros E; rewrite E in Hbig; unfold MAX_WAYPOINTS, len in Hbig; cbn in Hbig; lia).
  rewrite (upload_mission_nonempty _ _ Hne).
  destruct (upload_loop validate 0 (waypoints self) 0 self) as [[n|] self1] eqn:Hloop.
  - pose proof (upload_loop_frame _ _ _ _ _ _ _ Hloop) as Hframe.
    destruct (upload_loop_all_succeeded _ _ _ _ _ _ _ Hloop) as [_ Hall].
    cbv zeta. destruct (Z.eqb_spec n (len (waypoints self))) as [E|_].
    + destruct Hall as (H & _); [lia | exact Hne | lia].
    + cbn [fst snd]. rewrite clear_loop_frame, Hframe. done.
  - pose proof (upload_loop_frame _ _ _ _ _ _ _ Hloop) as ->. done.
Qed.

Lemma upload_over_capacity_fails_witness :
  fst (upload_mission false Fixtures.crowded_mission) = false
  /\ waypoints (snd (upload_mission false Fixtures.crowded_mission))
     = waypoints Fixtures.crowded_mission
  /\ _mission_loaded (snd (upload_mission false Fixtures.crowded_mission))
     = _mission_loaded Fixtures.crowded_mission.
Proof.
  apply (upload_over_capacity_fails false Fixtures.crowded_mission). by vm_compute.
Defined.

Lemma upload_loop_link (validate : bool) (ws : list Waypoint) (i count : Z)
    (self self' : Mission) (r : option Z) :
  upload_loop validate i ws count self = (r, self') ->
  (exists l, extends (conn self) l (conn self'))
  /\ match r with Some n => count <= n | None => True end.
Proof.
  revert i count self. induction ws as [|w rest IH]; intros i count self.
  - cbn [upload_loop]. intros [= <- <-]. split; [eexists; apply extends_refl | lia].
  - cbn [upload_loop]. destruct (set_waypoint i w validate self) as [ok self1] eqn:Hset.
    apply on_conn_inv in Hset as [Hwrite _].
    apply write_waypoint_link in Hwrite as [l1 Hl1].
    destruct ok; [|destruct validate].
    + intros H. apply IH in H as [[l2 Hl2] Hn]. split.
      * eexists. exact (extends_trans _ _ _ _ _ Hl1 Hl2).
      * destruct r; [lia | exact I].
    + intros [= <- <-]. split; [eauto | exact I].
    + intros H. apply IH in H as [[l2 Hl2] Hn]. split; [|exact Hn].
      eexists. exact (extends_trans _ _ _ _ _ Hl1 Hl2).
Qed.

Lemma slots_to_clear_window (n : Z) : slots_to_clear n = Spec.window_half_open n.
Proof.
  unfold slots_to_clear, Spec.window_half_open, py_range, MAX_WAYPOINTS.
  destruct (Z.ltb_spec n 60); [reflexivity|].
  unfold seqZ. replace (Z.to_nat (Z.min (n + 5) 60 - n)) with 0%nat by lia. reflexivity.
Qed.

(** X17. Without verification the upload goes on after a waypoint that
    could not be written, and the slots it clears afterwards are counted
    from the number [n] of waypoints that were written, not from the
    length of the mission: empty waypoints go to the slots
    [n .. min(n+5, 60) - 1], and the result is [True] only when [n] is
    the length of the mission. *)
Theorem upload_unverified_clears_from_success_count
    (self self1 : Mission) (n : Z) :
  healthy (conn self) = true ->
  waypoints self <> [] ->
  upload_loop false 0 (waypoints self) 0 self = (Some n, self1) ->
  fst (upload_mission false self) = (n =? len (waypoints self))
  /\ sent (conn (snd (upload_mission false self)))
     = sent (conn self1)
       ++ ((fun i => set_wp_packet (msp_v2_supported (conn self)) i empty_wp)
             <$> Spec.window_half_open n).
Proof.
  intros Hh Hne Hloop. rewrite (upload_mission_nonempty _ _ Hne), Hloop. cbv zeta.
  destruct (upload_loop_link _ _ _ _ _ _ _ Hloop) as [[l (Hh1 & Hv1 & _)] Hn].
  destruct (clear_loop_sent (slots_to_clear n) self1) as [_ (_ & _ & Hsent)].
  { rewrite slots_to_clear_window. unfold Spec.window_half_open, MAX_WAYPOINTS.
    apply Forall_seqZ. intros j Hj. lia. }
  { congruence. }
  rewrite Hv1 in Hsent. rewrite (slots_to_clear_window n) in Hsent at 2.
  destruct (n =? len (waypoints self)); cbn [fst snd conn set_loaded];
    (split; [reflexivity | exact Hsent]).
Qed.

Lemma upload_unverified_clears_from_success_count_witness :
  fst (upload_mission false Fixtures.patchy_mission) = false
  /\ sent (conn (snd (upload_mission false Fixtures.patchy_mission)))
     = [set_wp_packet false 1 Fixtures.sample_wp]
       ++ ((fun i => set_wp_packet false i empty_wp) <$> [1; 2; 3; 4; 5]).
Proof.
  apply (upload_unverified_clears_from_success_count Fixtures.patchy_mission
           Fixtures.patchy_after_loop 1).
  - reflexivity.
  - discriminate.
  - by vm_compute.
Defined.

End SyncExtras.

(** * Further properties of local edits and mission builders *)

Section EditExtras.
Import Core Planning Builders.

Lemma set_waypoints_back (self : Mission) (ws : list Waypoint) :
  set_waypoints (set_waypoints self ws) (waypoints self) = self.
Proof. by destruct self. Qed.

(** X18. The local edits touch the waypoint list only: after
    [add_waypoint], [insert_waypoint] or [remove_waypoint], whether they
    succeed or not, the connection and the loaded flag are what they
    were; in particular a mission that was marked loaded stays marked
    loaded after it is edited. *)
Theorem local_edits_keep_link_and_flag (self : Mission) (index : Z) (lat lon alt : float)
    (action param1 param2 param3 flag : Z) :
  let added := snd (add_waypoint lat lon alt action param1 param2 param3 flag self) in
  let inserted :=
    snd (insert_waypoint index lat lon alt action param1 param2 param3 flag self) in
  let removed := snd (remove_waypoint index self) in
  (conn added = conn self /\ _mission_loaded added = _mission_loaded self)
  /\ (conn inserted = conn self /\ _mission_loaded inserted = _mission_loaded self)
  /\ (conn removed = conn self /\ _mission_loaded removed = _mission_loaded self).
Proof.
  cbv zeta. unfold add_waypoint, insert_waypoint, remove_waypoint.
  destruct (len (waypoints self) >=? MAX_WAYPOINTS),
           (negb (validate_coordinates lat lon alt)),
           ((index <? 0) || (index >? len (waypoints self))),
           ((index <? 0) || (index >=? len (waypoints self))); done.
Qed.

(** X19. Inserting at the index equal to the number of waypoints is
    adding: both calls return the same result and the same mission. *)
Theorem insert_at_end_is_add (self : Mission) (lat lon alt : float)
    (action param1 param2 param3 flag : Z) :
  insert_waypoint (len (waypoints self)) lat lon alt action param1 param2 param3 flag self
  = add_waypoint lat lon alt action param1 param2 param3 flag self.
Proof.
  unfold insert_waypoint, add_waypoint. pose proof (len_nonneg (waypoints self)) as H0.
  destruct (Z.ltb_spec (len (waypoints self)) 0); [lia|].
  destruct (Z.gtb_spec (len (waypoints self)) (len (waypoints self))); [lia|].
  cbn [orb].
  destruct (len (waypoints self) >=? MAX_WAYPOINTS); [reflexivity|].
  destruct (negb (validate_coordinates lat lon alt)); [reflexivity|].
  unfold len. rewrite Nat2Z.id, take_ge, drop_ge by lia. reflexivity.
Qed.

(** X20. An insertion that succeeded is undone by removing at the same
    index: [remove_waypoint] returns [True] and the mission is the one
    before the insertion. *)
Theorem insert_then_remove (self self1 : Mission) (index : Z) (lat lon alt : float)
    (action param1 param2 param3 flag : Z) :
  insert_waypoint index lat lon alt action param1 param2 param3 flag self = (true, self1) ->
  remove_waypoint index self1 = (true, self).
Proof.
  unfold insert_waypoint.
  destruct ((index <? 0) || (index >? len (waypoints self))) eqn:Hi; [discriminate|].
  apply orb_false_iff in Hi as [H0 H1].
  apply Z.ltb_ge in H0. rewrite Z.gtb_ltb in H1. apply Z.ltb_ge in H1.
  destruct (len (waypoints self) >=? MAX_WAYPOINTS); [discriminate|].
  destruct (negb (validate_coordinates lat lon alt)); [discriminate|].
  intros [= <-]. unfold remove_waypoint. cbn [waypoints set_waypoints].
  set (i := Z.to_nat index).
  assert (Hlen : length (take i (waypoints self)) = i)
    by (rewrite length_take; unfold len in H1; lia).
  assert (Hin : (index <? 0)
                || (index >=? len (take i (waypoints self)
                                     ++ mkWaypoint lat lon alt action param1 param2 param3 flag
                                     :: drop i (waypoints self))) = false).
  { apply orb_false_iff. split; [by apply Z.ltb_ge|].
    rewrite Z.geb_leb. apply Z.leb_gt. unfold len.
    rewrite length_app, Hlen. cbn [length]. lia. }
  rewrite Hin.
  pose proof (delete_middle (take i (waypoints self)) (drop i (waypoints self))
                (mkWaypoint lat lon alt action param1 param2 param3 flag)) as Hd.
  rewrite Hlen in Hd. rewrite Hd, take_drop.
  by rewrite set_waypoints_back.
Qed.

Lemma insert_then_remove_witness :
  remove_waypoint 1
    (snd (insert_waypoint 1 10 20 30 1 0 0 0 0 Fixtures.pair_mission))
  = (true, Fixtures.pair_mission).
Proof.
  apply (insert_then_remove Fixtures.pair_mission _ 1 10 20 30 1 0 0 0 0).
  by vm_compute.
Defined.

(** X27. A coordinate that is not a number is refused: with a NaN as
    latitude, longitude or altitude, [add_waypoint] returns [False] and
    leaves the mission as it was. *)
Theorem add_waypoint_refuses_nan (self : Mission) (lat lon alt : float)
    (action param1 param2 param3 flag : Z) :
  lat = nan \/ lon = nan \/ alt = nan ->
  add_waypoint lat lon alt action param1 param2 param3 flag self = (false, self).
Proof.
  intros Hnan. unfold add_waypoint.
  destruct (len (waypoints self) >=? MAX_WAYPOINTS); [reflexivity|].
  assert (Hv : validate_coordinates lat lon alt = false).
  { unfold validate_coordinates. destruct Hnan as [->|[->| ->]].
    - reflexivity.
    - destruct (negb ((-90 <=? lat) && (lat <=? 90))%float); reflexivity.
    - destruct (negb ((-90 <=? lat) && (lat <=? 90))%float); [reflexivity|].
      destruct (negb ((-180 <=? lon) && (lon <=? 180))%float); reflexivity. }
  rewrite Hv. reflexivity.
Qed.

Lemma add_waypoint_refuses_nan_witness :
  add_waypoint 47 nan 50 1 0 0 0 0 Fixtures.pair_mission = (false, Fixtures.pair_mission).
Proof.
  apply (add_waypoint_refuses_nan Fixtures.pair_mission 47 nan 50 1 0 0 0 0).
  right. left. reflexivity.
Defined.

Lemma simple_loop_valid (coords : list (float * float * float)) (speed : Z)
    (self : Mission) :
  len (waypoints self) <= MAX_WAYPOINTS ->
  Forall (fun p => valid_coords p = true) coords ->
  simple_loop coords speed self
  = (len (waypoints self) + len coords <=? MAX_WAYPOINTS,
     set_waypoints self
       (take (Z.to_nat MAX_WAYPOINTS) (waypoints self ++ (route_wp speed <$> coords)))).
Proof.
  intros Hcap Hall. revert self Hcap.
  induction Hall as [|p rest Hp _ IH]; intros self Hcap.
  - cbn [simple_loop fmap list_fmap]. rewrite app_nil_r.
    rewrite take_ge by (unfold len, MAX_WAYPOINTS in *; lia).
    unfold len at 2. cbn [length]. rewrite Z.add_0_r.
    destruct (Z.leb_spec (len (waypoints self)) MAX_WAYPOINTS); [|lia].
    by destruct self.
  - destruct p as [[lat lon] alt]. cbn [simple_loop].
    assert (Hlen : len ((lat, lon, alt) :: rest) = 1 + len rest)
      by (unfold len; cbn [length]; lia).
    pose proof (len_nonneg rest) as Hrest.
    unfold add_waypoint. unfold valid_coords in Hp. cbn [fst snd] in Hp.
    destruct (Z.geb_spec (len (waypoints self)) MAX_WAYPOINTS) as [Hfull|Hroom].
    + cbn [negb]. rewrite take_app_le by (unfold len, MAX_WAYPOINTS in *; lia).
      rewrite take_ge by (unfold len, MAX_WAYPOINTS in *; lia).
      destruct (Z.leb_spec (len (waypoints self) + len ((lat, lon, alt) :: rest))
                  MAX_WAYPOINTS); [lia|].
      by destruct self.
    + rewrite Hp. cbn [negb].
      rewrite IH
        by (cbn [waypoints set_waypoints]; unfold len in *; rewrite length_app;
            cbn [length]; lia).
      cbn [waypoints set_waypoints conn fc_type _mission_loaded].
      rewrite <- app_assoc. cbn [fmap list_fmap app]. f_equal.
      unfold len. rewrite length_app. cbn [length].
      destruct (Z.leb_spec (Z.of_nat (length (waypoints self) + 1)
                            + Z.of_nat (length rest)) MAX_WAYPOINTS),
               (Z.leb_spec (Z.of_nat (length (waypoints self))
                            + Z.of_nat (S (length rest))) MAX_WAYPOINTS);
        first [reflexivity | lia].
Qed.

(** X21. [create_simple_mission] on coordinates that all pass
    validation: the mission becomes the route waypoints (action
    WAYPOINT, first parameter [speed]) followed by a return-to-home
    waypoint at the last coordinate, cut to the first 60; it is no
    longer marked loaded; the call returns [True] exactly when there are
    at most 60 coordinates.  With exactly 60 coordinates it returns
    [True] although the return-to-home waypoint did not fit. *)
Theorem create_simple_mission_route (coords : list (float * float * float)) (speed : Z)
    (self : Mission) :
  Forall (fun p => valid_coords p = true) coords ->
  create_simple_mission coords speed self
  = (len coords <=? MAX_WAYPOINTS,
     mkMission (conn self) (fc_type self)
       (take (Z.to_nat MAX_WAYPOINTS)
          ((route_wp speed <$> coords)
           ++ match last coords with Some p => [home_wp p] | None => [] end))
       false).
Proof.
  intros Hall. unfold create_simple_mission.
  rewrite simple_loop_valid by (first [exact Hall | by vm_compute]).
  cbn [clear_mission snd waypoints set_waypoints set_loaded app conn fc_type _mission_loaded].
  unfold len at 1. cbn [length]. rewrite Z.add_0_l.
  destruct (Z.leb_spec (len coords) MAX_WAYPOINTS) as [Hfit|Hover].
  - rewrite take_ge by (rewrite length_fmap; unfold len, MAX_WAYPOINTS in *; lia).
    destruct (last coords) as [[[llat llon] lalt]|] eqn:Hlast.
    + assert (Hp : valid_coords (llat, llon, lalt) = true).
      { rewrite Forall_forall in Hall. apply Hall. by apply last_Some_elem_of. }
      unfold valid_coords in Hp. cbn [fst snd] in Hp.
      unfold add_waypoint.
      cbn [waypoints set_waypoints set_loaded conn fc_type _mission_loaded].
      rewrite len_map, Hp. cbn [negb].
      destruct (Z.geb_spec (len coords) MAX_WAYPOINTS) as [Hfull|Hroom]; cbn [snd].
      * rewrite take_app_le by (rewrite length_fmap; unfold len, MAX_WAYPOINTS in *; lia).
        rewrite take_ge by (rewrite length_fmap; unfold len, MAX_WAYPOINTS in *; lia).
        reflexivity.
      * rewrite take_ge
          by (rewrite length_app, length_fmap; cbn [length];
              unfold len, MAX_WAYPOINTS in *; lia).
        reflexivity.
    + rewrite app_nil_r.
      rewrite take_ge by (rewrite length_fmap; unfold len, MAX_WAYPOINTS in *; lia).
      reflexivity.
  - rewrite take_app_le by (rewrite length_fmap; unfold len, MAX_WAYPOINTS in *; lia).
    reflexivity.
Qed.

Lemma create_simple_mission_route_witness :
  create_simple_mission [Fixtures.here; Fixtures.there] 500 Fixtures.pair_mission
  = (true,
     mkMission Fixtures.quiet_conn INAV
       [route_wp 500 Fixtures.here; route_wp 500 Fixtures.there; home_wp Fixtures.there]
       false).
Proof.
  apply (create_simple_mission_route [Fixtures.here; Fixtures.there] 500
           Fixtures.pair_mission).
  repeat constructor.
Defined.

Lemma simple_loop_app (pre rest : list (float * float * float)) (speed : Z)
    (self : Mission) :
  simple_loop (pre ++ rest) speed self
  = match simple_loop pre speed self with
    | (true, self1) => simple_loop rest speed self1
    | (false, self1) => (false, self1)
    end.
Proof.
  revert self. induction pre as [|[[lat lon] alt] pre IH]; intros self; [reflexivity|].
  cbn [app simple_loop].
  destruct (add_waypoint lat lon alt WAYPOINT_ACTION_WAYPOINT speed 0 0 0 self)
    as [[|] self1]; cbn [negb]; [apply IH | reflexivity].
Qed.

(** X22. [create_simple_mission] stops at the first coordinate that
    fails validation: it returns [False] and leaves the mission holding
    the route waypoints of the coordinates before it, with no
    return-to-home waypoint; what the mission held before is gone. *)
Theorem create_simple_mission_stops_at_invalid
    (pre post : list (float * float * float)) (bad : float * float * float)
    (speed : Z) (self : Mission) :
  Forall (fun p => valid_coords p = true) pre ->
  valid_coords bad = false ->
  len pre < MAX_WAYPOINTS ->
  create_simple_mission (pre ++ bad :: post) speed self
  = (false, mkMission (conn self) (fc_type self) (route_wp speed <$> pre) false).
Proof.
  intros Hpre Hbad Hlen. unfold create_simple_mission.
  rewrite simple_loop_app, simple_loop_valid by (first [exact Hpre | by vm_compute]).
  cbn [clear_mission snd waypoints set_waypoints set_loaded app conn fc_type _mission_loaded].
  unfold len at 1. cbn [length]. rewrite Z.add_0_l.
  destruct (Z.leb_spec (len pre) MAX_WAYPOINTS) as [_|?]; [|lia].
  rewrite take_ge by (rewrite length_fmap; unfold len, MAX_WAYPOINTS in *; lia).
  destruct bad as [[lat lon] alt]. cbn [simple_loop]. unfold add_waypoint.
  cbn [waypoints set_waypoints set_loaded conn fc_type _mission_loaded].
  rewrite len_map.
  destruct (Z.geb_spec (len pre) MAX_WAYPOINTS) as [?|_]; [lia|].
  unfold valid_coords in Hbad. cbn [fst snd] in Hbad. rewrite Hbad. reflexivity.
Qed.

Lemma create_simple_mission_stops_at_invalid_witness :
  create_simple_mission [Fixtures.here; Fixtures.nowhere; Fixtures.there] 500
    Fixtures.pair_mission
  = (false, mkMission Fixtures.quiet_conn INAV [route_wp 500 Fixtures.here] false).
Proof.
  apply (create_simple_mission_stops_at_invalid [Fixtures.here] [Fixtures.there]
           Fixtures.nowhere 500 Fixtures.pair_mission).
  - repeat constructor.
  - reflexivity.
  - by vm_compute.
Defined.

(** X23. [Waypoint.from_dict]: the position is required, the rest is
    optional.  A dictionary without ["lat"] raises [KeyError]; one that
    gives the position and none of the other keys yields a waypoint with
    action 1 and the three parameters and the flag at 0. *)
Theorem from_dict_defaults (o : gmap string json) (a b c : float) :
  (o !! "lat" = None -> from_dict (JObject o) = Raise KeyError)
  /\ (o !! "lat" = Some (JFloat a) -> o !! "lon" = Some (JFloat b) ->
      o !! "alt" = Some (JFloat c) ->
      o !! "action" = None -> o !! "param1" = None -> o !! "param2" = None ->
      o !! "param3" = None -> o !! "flag" = None ->
      from_dict (JObject o) = Return (Some (mkWaypoint a b c 1 0 0 0 0))).
Proof.
  split.
  - intros H. unfold from_dict. cbn [getitem]. rewrite H. reflexivity.
  - intros H1 H2 H3 H4 H5 H6 H7 H8. unfold from_dict. cbn [getitem dict_get].
    rewrite H1, H2, H3, H4, H5, H6, H7, H8. reflexivity.
Qed.

Lemma from_dict_defaults_witness :
  from_dict Fixtures.torn_entry = Raise KeyError
  /\ from_dict (JObject Fixtures.bare_entry) = Return (Some (mkWaypoint 1 2 3 1 0 0 0 0)).
Proof.
  split.
  - apply (proj1 (from_dict_defaults _ 0 0 0)). reflexivity.
  - apply (proj2 (from_dict_defaults Fixtures.bare_entry 1 2 3)); reflexivity.
Defined.

Lemma from_dict_unreadable (entry : json) :
  unreadable entry = true <-> exists e, from_dict entry = Raise e.
Proof.
  unfold unreadable, from_dict.
  destruct entry as [| | | | | |o]; cbn [getitem obind];
    try (split; [intros _; by eexists | done]).
  destruct (o !! "lat") as [v1|]; cbn [obind];
    [|split; [intros _; by eexists | done]].
  destruct (o !! "lon") as [v2|]; cbn [obind];
    [|split; [intros _; by eexists | done]].
  destruct (o !! "alt") as [v3|]; cbn [obind dict_get];
    [|split; [intros _; by eexists | done]].
  rewrite !bool_decide_eq_true_2 by (by eexists). cbn [andb negb].
  split; [done|]. intros [e He].
  destruct (o !! "action"), (o !! "param1"), (o !! "param2"), (o !! "param3"),
           (o !! "flag"); discriminate.
Qed.

Lemma load_loop_stops (good : list Waypoint) (bad : json) (rest : list json)
    (self : Mission) :
  unreadable bad = true ->
  load_loop ((to_dict <$> good) ++ bad :: rest) self
  = Some (false, set_waypoints self (waypoints self ++ good)).
Proof.
  intros Hbad. apply from_dict_unreadable in Hbad as [e Hbad].
  revert self. induction good as [|w good IH]; intros self.
  - cbn [fmap list_fmap app load_loop]. rewrite Hbad, app_nil_r. by destruct self.
  - cbn [fmap list_fmap app load_loop]. rewrite from_dict_to_dict.
    change (list_fmap Waypoint json to_dict good) with (to_dict <$> good).
    rewrite IH. cbn [set_waypoints waypoints conn fc_type _mission_loaded].
    by rewrite <- app_assoc.
Qed.

Lemma load_loop_fails (items : list json) (self self' : Mission) :
  load_loop items self = Some (false, self') -> Exists (fun d => unreadable d = true) items.
Proof.
  revert self. induction items as [|d items IH]; intros self; [discriminate|].
  cbn [load_loop]. destruct (from_dict d) as [[w|]|e] eqn:Hd.
  - intros H. apply Exists_cons_tl. exact (IH _ H).
  - discriminate.
  - intros _. apply Exists_cons_hd. apply from_dict_unreadable. by eexists.
Qed.



(** X25. A mission file that is an object without a ["waypoints"] entry
    loads as the empty mission: [load_mission_from_file] returns [True]
    and the mission it was called on is emptied and no longer marked
    loaded. *)
Theorem load_mission_without_waypoints (filename : string) (self : Mission)
    (fs : FileSystem) (o : gmap string json) :
  fs !! filename = Some (JObject o) ->
  o !! "waypoints" = None ->
  load_mission_from_file filename self fs
  = Some (true, mkMission (conn self) (fc_type self) [] false).
Proof.
  intros Hfile Hws. unfold load_mission_from_file.
  rewrite Hfile. cbn [dict_get]. rewrite Hws. reflexivity.
Qed.

Lemma load_mission_without_waypoints_witness :
  load_mission_from_file "bare.json" Fixtures.pair_mission
    (<["bare.json" := JObject Fixtures.bare_entry]> ∅)
  = Some (true, mkMission Fixtures.quiet_conn INAV [] false).
Proof.
  apply (load_mission_without_waypoints "bare.json" Fixtures.pair_mission
           (<["bare.json" := JObject Fixtures.bare_entry]> ∅) Fixtures.bare_entry);
    reflexivity.
Defined.

(** X26. The dictionaries that [get_waypoints] returns read back, one
    by one and in order, as the waypoints of the mission. *)
Theorem get_waypoints_read_back (self : Mission) :
  from_dict <$> get_waypoints self = (fun w => Return (Some w)) <$> waypoints self.
Proof.
  unfold get_waypoints. rewrite <- list_fmap_compose.
  apply list_fmap_ext. intros i w _. cbn. apply from_dict_to_dict.
Qed.

End EditExtras.

(** * Capacity *)

Section CapacityExtras.
Import Core Planning Builders.

Lemma simple_loop_capacity (coords : list (float * float * float)) (speed : Z)
    (self : Mission) :
  len (waypoints self) <= MAX_WAYPOINTS ->
  len (waypoints (snd (simple_loop coords speed self))) <= MAX_WAYPOINTS.
Proof.
  revert self. induction coords as [|[[lat lon] alt] rest IH]; intros self Hcap;
    [exact Hcap|].
  cbn [simple_loop].
  pose proof (add_waypoint_capacity self lat lon alt WAYPOINT_ACTION_WAYPOINT speed 0 0 0
                Hcap) as Hadd.
  destruct (add_waypoint lat lon alt WAYPOINT_ACTION_WAYPOINT speed 0 0 0 self)
    as [[|] self1]; cbn [negb snd] in *; [apply IH, Hadd | exact Hadd].
Qed.

(** X28. Every way of changing a mission other than loading a file
    keeps it within 60 waypoints: [add_waypoint], [insert_waypoint] and
    [remove_waypoint] keep a mission of at most 60 waypoints at most
    that long, and [clear_mission], [download_mission] and
    [create_simple_mission] yield at most 60 waypoints whatever the
    mission held, whatever the device sends and however many coordinates
    are given. *)
Theorem capacity_kept_outside_file_loading (self : Mission) (index : Z)
    (lat lon alt : float) (action param1 param2 param3 flag speed : Z)
    (coords : list (float * float * float)) :
  (len (waypoints self) <= MAX_WAYPOINTS ->
   len (waypoints (snd (add_waypoint lat lon alt action param1 param2 param3 flag self)))
   <= MAX_WAYPOINTS
   /\ len (waypoints
             (snd (insert_waypoint index lat lon alt action param1 param2 param3 flag self)))
      <= MAX_WAYPOINTS
   /\ len (waypoints (snd (remove_waypoint index self))) <= MAX_WAYPOINTS)
  /\ len (waypoints (snd (clear_mission self))) <= MAX_WAYPOINTS
  /\ len (waypoints (snd (download_mission self))) <= MAX_WAYPOINTS
  /\ len (waypoints (snd (create_simple_mission coords speed self))) <= MAX_WAYPOINTS.
Proof.
  split; [|split; [|split]].
  - intros Hcap. split; [|split].
    + by apply add_waypoint_capacity.
    + by apply insert_waypoint_capacity.
    + by apply remove_waypoint_capacity.
  - apply clear_mission_capacity.
  - apply download_mission_capacity.
  - unfold create_simple_mission.
    pose proof (simple_loop_capacity coords speed (snd (clear_mission self))
                  (clear_mission_capacity self)) as Hloop.
    destruct (simple_loop coords speed (snd (clear_mission self))) as [[|] self1];
      cbn [snd] in *; [|exact Hloop].
    destruct (last coords) as [[[llat llon] lalt]|]; cbn [snd]; [|exact Hloop].
    by apply add_waypoint_capacity.
Qed.

Lemma capacity_kept_outside_file_loading_witness :
  len (waypoints (snd (add_waypoint 10 20 30 1 0 0 0 0 Fixtures.pair_mission)))
  <= MAX_WAYPOINTS.
Proof.
  destruct (capacity_kept_outside_file_loading Fixtures.pair_mission 0 10 20 30
              1 0 0 0 0 500 []) as [H _].
  apply H. by vm_compute.
Defined.

End CapacityExtras.
